(** * react-grab feedback demo: a shallow embedding and its properties

    The development follows the source units of the repository:

    - the playground page ([App]): selector synthesis, element snapshots,
      component-name extraction and the draft controller that reconciles
      overlapping describe-element calls with a generation token;
    - the Remix route ([Remix]): the same helpers in their second variant;
    - the local-storage feedback service, on stored records
      ([FeedbackService]) and on whatever the storage holds
      ([ParsedStore]);
    - the state of the playground page and its handlers ([Page]), and the
      action, the loader and the forms of the route ([Route]);
    - the database client module ([DbServer]) and the server entry
      ([EntryServer]) of the route.

    JavaScript strings are sequences of UTF-16 code units, the DOM is the
    ancestor chain an element hangs from, and the browser's storage is a
    finite map from keys to stored texts. *)

From stdpp Require Import strings list gmap pretty.
From Stdlib Require Import ZArith NArith Lia Sorting.Sorted Sorting.Permutation.

Set Warnings "-register-all".

(** ** JavaScript strings *)

Module JS.

(** A string is the list of its UTF-16 code units. *)
Definition jsstring : Type := list N.

(** The code units of an ASCII literal. *)
Definition js (s : string) : jsstring :=
  map Ascii.N_of_ascii (String.list_ascii_of_string s).
Arguments js : simpl never.

(** [\s] of a regular expression without the [u] flag, which is also the
    set [String.prototype.trim] strips: WhiteSpace and LineTerminator. *)
Definition is_space (c : N) : bool :=
  ((9 <=? c) && (c <=? 13) || (c =? 32) || (c =? 160) || (c =? 5760)
   || (8192 <=? c) && (c <=? 8202) || (c =? 8232) || (c =? 8233)
   || (c =? 8239) || (c =? 8287) || (c =? 12288) || (c =? 65279))%N.

Definition is_upper (c : N) : bool := ((65 <=? c) && (c <=? 90))%N.
Definition is_lower (c : N) : bool := ((97 <=? c) && (c <=? 122))%N.
Definition is_digit (c : N) : bool := ((48 <=? c) && (c <=? 57))%N.

(** [\w]: ASCII letters, digits and the underscore. *)
Definition is_word (c : N) : bool :=
  is_upper c || is_lower c || is_digit c || (c =? 95)%N.

(** [String.prototype.toLowerCase] on the ASCII letters. Every other code
    unit is kept, also a capital outside ASCII, which [toLowerCase] lowers
    as well: the candidate of the extractor and the header name lowered
    below are ASCII, a tag name need not be. *)
Definition lower_unit (c : N) : N := if is_upper c then (c + 32)%N else c.
Definition toLowerCase (s : jsstring) : jsstring := map lower_unit s.

(** [Array.prototype.join]. *)
Fixpoint join (sep : jsstring) (parts : list jsstring) : jsstring :=
  match parts with
  | [] => []
  | [p] => p
  | p :: rest => p ++ sep ++ join sep rest
  end.

(** [s.slice(0, n)]. *)
Definition slice0 (n : nat) (s : jsstring) : jsstring := take n s.

Fixpoint trimStart (s : jsstring) : jsstring :=
  match s with
  | c :: rest => if is_space c then trimStart rest else s
  | [] => []
  end.

(** [String.prototype.trim]. *)
Definition trim (s : jsstring) : jsstring :=
  reverse (trimStart (reverse (trimStart s))).

(** [s.replace(/\s+/g, " ")]: every maximal run of white space becomes one
    space. [inRun] tells that the previous unit was white space. *)
Fixpoint collapse (inRun : bool) (s : jsstring) : jsstring :=
  match s with
  | [] => []
  | c :: rest =>
      if is_space c
      then (if inRun then collapse true rest else 32%N :: collapse true rest)
      else c :: collapse false rest
  end.

Definition collapseSpaces (s : jsstring) : jsstring := collapse false s.

(** Truthiness of a string: the empty string is falsy. *)
Definition truthy (s : jsstring) : bool :=
  match s with [] => false | _ => true end.

End JS.

Import JS.

(** ** The DOM as the selector builder sees it *)

Module Dom.

(** An element with the properties the page code reads, and its parent.
    [tagName] is [None] when the node exposes no tag name (the code guards
    the access with [?.]); [isHTMLElement] is [current instanceof
    HTMLElement]; [textContent] is [None] for [null]. *)
Inductive Element : Type := mkElement {
  tagName : option jsstring;
  isHTMLElement : bool;
  id : jsstring;
  classList : list jsstring;
  outerHTML : jsstring;
  textContent : option jsstring;
  parentElement : option Element
}.

(** Induction along the parent chain. *)
Fixpoint Element_parent_ind (P : Element -> Prop)
    (step : forall e, (forall p, parentElement e = Some p -> P p) -> P e)
    (e : Element) {struct e} : P e :=
  step e
    (match e as e0 return forall p, parentElement e0 = Some p -> P p with
     | mkElement _ _ _ _ _ _ None => fun p H => match Some_ne_None _ (eq_sym H) with end
     | mkElement _ _ _ _ _ _ (Some q) => fun p H =>
         eq_rect q P (Element_parent_ind P step q) p (Some_inj _ _ H)
     end).

(** The element and its ancestors, nearest first. *)
Fixpoint ancestors (e : Element) : list Element :=
  e :: match parentElement e with
       | None => []
       | Some p => ancestors p
       end.

(** The same chain cut after [n] levels ([n] at least one: the element
    itself always stays). *)
Fixpoint truncate (n : nat) (e : Element) : Element :=
  mkElement (tagName e) (isHTMLElement e) (id e) (classList e)
    (outerHTML e) (textContent e)
    (match n, parentElement e with
     | S (S m), Some p => Some (truncate (S m) p)
     | _, _ => None
     end).

End Dom.

Import Dom.

(** ** The playground page *)

Module App.

(** *** Selector builder *)

(** The [while (current && parts.length < 5)] loop of [buildSelector];
    [parts] is the array built so far, each [push] appends to it, and the
    loop ends on [break], on a missing parent or on the fifth part. *)
Fixpoint buildSelector_loop (current : Element) (parts : list jsstring)
    : list jsstring :=
  if decide (length parts < 5) then
    let tag := default [] (toLowerCase <$> tagName current) in
    if isHTMLElement current then
      if truthy (id current) then
        parts ++ [tag ++ js "#" ++ id current]
      else
        let classes :=
          (fun className => js "." ++ className)
            <$> take 2 (filter (fun c => truthy c = true) (classList current)) in
        let suffix := if decide (0 < length classes) then concat classes else [] in
        let parts := parts ++ [tag ++ suffix] in
        match parentElement current with
        | Some parent => buildSelector_loop parent parts
        | None => parts
        end
    else
      let parts := parts ++ [tag] in
      match parentElement current with
      | Some parent => buildSelector_loop parent parts
      | None => parts
      end
  else parts.

Definition buildSelector (element : Element) : jsstring :=
  join (js " > ") (reverse (buildSelector_loop element [])).

(** *** Element snapshot *)

Record ElementSnapshot : Type := mkSnapshot {
  selector : jsstring;
  elementLabel : jsstring;
  tagName : jsstring;
  textPreview : jsstring;
  htmlPreview : jsstring;
  pageUrl : jsstring
}.

(** The separator of the label pieces: a middle dot between two spaces. *)
Definition labelSeparator : jsstring := [32; 183; 32]%N.

(** [createElementSnapshot]; [href] is [window.location.href] when the
    snapshot is taken. *)
Definition createElementSnapshot (element : Element) (href : jsstring)
    : ElementSnapshot :=
  let tagName := default (js "unknown") (toLowerCase <$> Dom.tagName element) in
  let selector := buildSelector element in
  let htmlPreview :=
    if isHTMLElement element && truthy (outerHTML element)
    then (if decide (400 < length (outerHTML element))
          then slice0 400 (outerHTML element) ++ js "..."
          else outerHTML element)
    else js "<" ++ tagName ++ js " />" in
  let textContent :=
    default [] ((fun t => collapseSpaces (trim t)) <$> textContent element) in
  let textPreview :=
    if decide (120 < length textContent)
    then slice0 120 textContent ++ js "..."
    else textContent in
  let labelPieces :=
    [js "<" ++ tagName ++ js ">"]
      ++ (if truthy textPreview then [textPreview] else []) in
  {| selector := selector;
     elementLabel := join labelSeparator labelPieces;
     tagName := tagName;
     textPreview := textPreview;
     htmlPreview := htmlPreview;
     pageUrl := href |}.

(** *** Component-name extractor *)

(** The units of [s] up to the first one that fails [p], and the rest. *)
Fixpoint span (p : N -> bool) (s : jsstring) : jsstring * jsstring :=
  match s with
  | c :: rest =>
      if p c then let '(run, tail) := span p rest in (c :: run, tail)
      else ([], s)
  | [] => ([], [])
  end.

(** A word unit or a dot. *)
Definition is_name_unit (c : N) : bool := is_word c || (c =? 46)%N.

(** The pattern after its word boundary, anchored at the head of [s]: the
    letters [in], one or more white-space units, then the captured group,
    a capital letter followed by the longest run of word or dot units. The
    quantifiers are greedy, and since the capital letter is no white space
    and nothing follows the group, the greedy reading is the only one. *)
Definition match_here (s : jsstring) : option jsstring :=
  match s with
  | i :: n :: rest =>
      if ((i =? 105) && (n =? 110))%N then
        match span is_space rest with
        | (_ :: _, c :: tail) =>
            if is_upper c then Some (c :: (span is_name_unit tail).1) else None
        | _ => None
        end
      else None
  | _ => None
  end.

(** [context.match] with the pattern of [extractComponentName]: the group
    of the leftmost match. [prevWord] tells that the unit before [s] is a
    word character; the word boundary in front of the word character [i]
    holds exactly when it is not. *)
Fixpoint match_from (prevWord : bool) (s : jsstring) : option jsstring :=
  match s with
  | [] => None
  | c :: rest =>
      match (if prevWord then None else match_here s) with
      | Some group => Some group
      | None => match_from (is_word c) rest
      end
  end.

Definition regex_match (context : jsstring) : option jsstring :=
  match_from false context.

Definition extractComponentName (context : jsstring) : option jsstring :=
  match regex_match context with
  | None => None
  | Some candidate =>
      if negb (truthy candidate)
         || bool_decide (candidate = js "<anonymous>")
         || bool_decide (toLowerCase candidate = js "server")
      then None
      else Some candidate
  end.

(** Whether a word character stands right before the end of [s]; [before]
    answers for the empty [s]. *)
Definition wordBefore (before : bool) (s : jsstring) : bool :=
  match last s with
  | Some c => is_word c
  | None => before
  end.

Definition endsWithWord (s : jsstring) : bool := wordBefore false s.

(** Whether [s] goes on with a unit an identifier could continue with. *)
Definition startsWithNameUnit (s : jsstring) : bool :=
  match s with
  | c :: _ => is_name_unit c
  | [] => false
  end.

(** *** Draft controller *)

(** [FeedbackDraft extends ElementSnapshot]: the six snapshot fields are
    kept together as [snapshot], so that the spread of a snapshot sets
    them and the spread of the previous draft keeps them. [componentName]
    is [None] for [null]. *)
Record FeedbackDraft : Type := mkDraft {
  snapshot : ElementSnapshot;
  context : jsstring;
  componentName : option jsstring;
  feedbackText : jsstring;
  isContextPending : bool
}.

(** What the two callbacks of one [formatElementInfo] call close over. *)
Record DescribeCall : Type := mkCall {
  currentToken : Z;
  callSnapshot : ElementSnapshot
}.

(** The state owned by the component: the token ref, the draft state and
    the describe calls that have not settled yet, oldest first. *)
Record Controller : Type := mkController {
  contextTokenRef : Z;
  draft : option FeedbackDraft;
  inflight : list DescribeCall
}.

(** [useRef(0)], [useState(null)], no call issued. *)
Definition initial : Controller :=
  {| contextTokenRef := 0; draft := None; inflight := [] |}.

(** [contextTokenRef.current += 1] on a number: exact below [2^53], where
    the sum rounds back to [2^53]. *)
Definition increment (n : Z) : Z :=
  if decide (n < 2 ^ 53)%Z then (n + 1)%Z else n.

(** [setDraft(updater)]: the updaters run in the order they are queued. *)
Definition setDraft (updater : option FeedbackDraft -> option FeedbackDraft)
    (st : Controller) : Controller :=
  {| contextTokenRef := contextTokenRef st;
     draft := updater (draft st);
     inflight := inflight st |}.

(** The updater that installs the placeholder draft of a new selection. *)
Definition installDraft (snap : ElementSnapshot)
    (previous : option FeedbackDraft) : option FeedbackDraft :=
  let preserved :=
    match previous with
    | Some p =>
        if decide (selector (snapshot p) = selector snap)
        then feedbackText p else []
    | None => []
    end in
  Some {| snapshot := snap;
          context := htmlPreview snap;
          componentName := previous ≫= componentName;
          feedbackText := preserved;
          isContextPending := true |}.

(** The updater queued by the [then] callback. *)
Definition mergeContext (snap : ElementSnapshot) (contextText : jsstring)
    (name : option jsstring) (previous : option FeedbackDraft)
    : option FeedbackDraft :=
  match previous with
  | Some p =>
      if decide (selector (snapshot p) ≠ selector snap) then previous
      else Some {| snapshot := snapshot p;
                   context := contextText;
                   componentName := name;
                   feedbackText := feedbackText p;
                   isContextPending := false |}
  | None => previous
  end.

(** The updater queued by the [catch] callback. *)
Definition clearPending (snap : ElementSnapshot)
    (previous : option FeedbackDraft) : option FeedbackDraft :=
  match previous with
  | Some p =>
      if decide (selector (snapshot p) ≠ selector snap) then previous
      else Some {| snapshot := snapshot p;
                   context := context p;
                   componentName := componentName p;
                   feedbackText := feedbackText p;
                   isContextPending := false |}
  | None => previous
  end.

(** The [then] callback of a call, run with the resolved text. *)
Definition onResolved (call : DescribeCall) (contextText : jsstring)
    (st : Controller) : Controller :=
  if decide (contextTokenRef st ≠ currentToken call) then st
  else
    let name := extractComponentName contextText in
    setDraft (mergeContext (callSnapshot call) contextText name) st.

(** The [catch] callback of a call. *)
Definition onRejected (call : DescribeCall) (st : Controller) : Controller :=
  if decide (contextTokenRef st ≠ currentToken call) then st
  else setDraft (clearPending (callSnapshot call)) st.

(** The text area's [onChange] updater. *)
Definition editFeedback (value : jsstring)
    (previous : option FeedbackDraft) : option FeedbackDraft :=
  match previous with
  | Some p => Some {| snapshot := snapshot p;
                      context := context p;
                      componentName := componentName p;
                      feedbackText := value;
                      isContextPending := isContextPending p |}
  | None => previous
  end.

(** What happens to the controller, one event at a time. A describe call
    settles once: the [i]-th call in flight either resolves with a text or
    rejects, and leaves [inflight]. The remaining events are the other
    writers of the draft: typing, the reset after a stored submission and
    the reset button. *)
Inductive Event : Type :=
| Select (element : Element) (href : jsstring)
| Resolve (i : nat) (contextText : jsstring)
| Reject (i : nat)
| Edit (value : jsstring)
| Submitted
| ResetDraft.

Definition settle (i : nat) (st : Controller) : Controller :=
  {| contextTokenRef := contextTokenRef st;
     draft := draft st;
     inflight := delete i (inflight st) |}.

(** The two pages run the same selection handler, each over its own
    snapshot builder [build]. *)
Section Handler.

Variable build : Element -> jsstring -> ElementSnapshot.

(** The handler up to the point where the describe call is issued; the
    call joins [inflight] with the token and the snapshot it captured. *)
Definition selectWith (element : Element) (href : jsstring)
    (st : Controller) : Controller :=
  let snap := build element href in
  let token := increment (contextTokenRef st) in
  {| contextTokenRef := token;
     draft := installDraft snap (draft st);
     inflight := inflight st ++ [ {| currentToken := token; callSnapshot := snap |} ] |}.

(** One event; [None] when the event names a call that is not in flight. *)
Definition step (st : Controller) (ev : Event) : option Controller :=
  match ev with
  | Select element href => Some (selectWith element href st)
  | Resolve i contextText =>
      call ← inflight st !! i; Some (onResolved call contextText (settle i st))
  | Reject i =>
      call ← inflight st !! i; Some (onRejected call (settle i st))
  | Edit value => Some (setDraft (editFeedback value) st)
  | Submitted => Some (setDraft (editFeedback []) st)
  | ResetDraft => Some (setDraft (fun _ => None) st)
  end.

Fixpoint run (st : Controller) (events : list Event) : option Controller :=
  match events with
  | [] => Some st
  | ev :: rest => st' ← step st ev; run st' rest
  end.

End Handler.

(** [onElementSelect] of the playground page. *)
Definition onElementSelect : Element -> jsstring -> Controller -> Controller :=
  selectWith createElementSnapshot.

(** Events that neither start a selection nor drop the draft. *)
Definition keepsSelection (ev : Event) : bool :=
  match ev with
  | Select _ _ | ResetDraft => false
  | _ => true
  end.

Definition isSelect (ev : Event) : bool :=
  match ev with
  | Select _ _ => true
  | _ => false
  end.

(** The call an event settles. *)
Definition settledCall (ev : Event) : option nat :=
  match ev with
  | Resolve i _ | Reject i => Some i
  | _ => None
  end.

(** The number of selections among some events. *)
Definition selections (events : list Event) : nat :=
  length (filter (fun ev => isSelect ev = true) events).

(** *** Invariants of the controller *)

(** No call in flight captured a token above the current one. *)
Definition tokensBounded (st : Controller) : Prop :=
  Forall (fun call => (currentToken call <= contextTokenRef st)%Z) (inflight st).

(** A call issued before the selection that set the token to [token]. *)
Definition superseded (token : Z) (call : DescribeCall) : Prop :=
  (currentToken call < token)%Z.

(** After the selection of [snap] under [token], while no newer selection
    and no reset happened: the draft is the one of [snap], and of the calls
    in flight only the last one, if it has not settled, is not superseded. *)
Definition awaiting (token : Z) (snap : ElementSnapshot) (st : Controller) : Prop :=
  contextTokenRef st = token
  /\ (exists d, draft st = Some d /\ snapshot d = snap)
  /\ exists older latest,
       inflight st = older ++ latest
       /\ Forall (superseded token) older
       /\ (latest = [] \/ latest = [ {| currentToken := token; callSnapshot := snap |} ]).

(** After the call of that selection resolved with [contextText]. *)
Definition resolvedWith (token : Z) (snap : ElementSnapshot)
    (contextText : jsstring) (st : Controller) : Prop :=
  contextTokenRef st = token
  /\ (exists d, draft st = Some d
                /\ snapshot d = snap
                /\ context d = contextText
                /\ componentName d = extractComponentName contextText
                /\ isContextPending d = false)
  /\ Forall (superseded token) (inflight st).

(** A draft that shows the pending mark has a call in flight that carries
    the current token and the draft's snapshot. *)
Definition pendingBacked (st : Controller) : Prop :=
  forall d, draft st = Some d -> isContextPending d = true ->
    exists i call,
      inflight st !! i = Some call
      /\ currentToken call = contextTokenRef st
      /\ callSnapshot call = snapshot d.


End App.

(** ** The Remix route *)

Module Remix.

(** [buildSelector] of the route: the loop counts its rounds in [depth] and
    a missing tag name reads [element]. *)
Fixpoint buildSelector_loop (current : Element) (depth : nat)
    (parts : list jsstring) : list jsstring :=
  if decide (depth < 5) then
    let depth := depth + 1 in
    let tag := default (js "element") (toLowerCase <$> tagName current) in
    if isHTMLElement current then
      if truthy (id current) then
        parts ++ [tag ++ js "#" ++ id current]
      else
        let classes :=
          (fun className => js "." ++ className)
            <$> take 2 (filter (fun c => truthy c = true) (classList current)) in
        let suffix := concat classes in
        let parts := parts ++ [tag ++ suffix] in
        match parentElement current with
        | Some parent => buildSelector_loop parent depth parts
        | None => parts
        end
    else
      let parts := parts ++ [tag] in
      match parentElement current with
      | Some parent => buildSelector_loop parent depth parts
      | None => parts
      end
  else parts.

Definition buildSelector (element : Element) : jsstring :=
  join (js " > ") (reverse (buildSelector_loop element 0 [])).

Definition createElementSnapshot (element : Element) (href : jsstring)
    : App.ElementSnapshot :=
  let tagName := default (js "unknown") (toLowerCase <$> Dom.tagName element) in
  let selector := buildSelector element in
  let htmlPreview :=
    if isHTMLElement element && truthy (outerHTML element)
    then (if decide (400 < length (outerHTML element))
          then slice0 400 (outerHTML element) ++ js "..."
          else outerHTML element)
    else js "<" ++ tagName ++ js " />" in
  let textContent :=
    default [] ((fun t => collapseSpaces (trim t)) <$> textContent element) in
  let textPreview :=
    if decide (120 < length textContent)
    then slice0 120 textContent ++ js "..."
    else textContent in
  let elementLabel :=
    if truthy textPreview
    then js "<" ++ tagName ++ js ">" ++ App.labelSeparator ++ textPreview
    else js "<" ++ tagName ++ js ">" in
  {| App.selector := selector;
     App.elementLabel := elementLabel;
     App.tagName := tagName;
     App.textPreview := textPreview;
     App.htmlPreview := htmlPreview;
     App.pageUrl := href |}.

(** [extractComponentName] is the same text in both files. *)
Definition extractComponentName : jsstring -> option jsstring :=
  App.extractComponentName.

(** [handleElementSelect]: the handler of the playground page over the
    route's snapshot builder. *)
Definition handleElementSelect
    : Element -> jsstring -> App.Controller -> App.Controller :=
  App.selectWith createElementSnapshot.

End Remix.

(** ** The selector walk in closed form *)

(** What one node contributes to the selector, and whether the walk stops
    at it; [fallback] is the tag of a node without tag name. *)
Definition selectorPart (fallback : jsstring) (node : Element) : jsstring * bool :=
  let tag := default fallback (toLowerCase <$> Dom.tagName node) in
  if isHTMLElement node then
    if truthy (id node) then (tag ++ js "#" ++ id node, true)
    else
      (tag ++ concat ((fun className => js "." ++ className)
                        <$> take 2 (filter (fun c => truthy c = true) (classList node))),
       false)
  else (tag, false).

(** The parts of at most [levels] nodes, from [node] upwards. *)
Fixpoint selectorWalk (fallback : jsstring) (levels : nat) (node : Element)
    : list jsstring :=
  match levels with
  | 0 => []
  | S levels' =>
      (selectorPart fallback node).1
        :: (if (selectorPart fallback node).2 then []
            else match parentElement node with
                 | Some parent => selectorWalk fallback levels' parent
                 | None => []
                 end)
  end.

(** ** Shapes of texts *)

Module Text.

(** All white space, the empty text included. *)
Definition blank (s : jsstring) : bool := forallb is_space s.

(** No white space in front. *)
Definition startsClean (s : jsstring) : bool :=
  match s with
  | c :: _ => negb (is_space c)
  | [] => true
  end.

(** No white space at the end. *)
Definition endsClean (s : jsstring) : bool :=
  match last s with
  | Some c => negb (is_space c)
  | None => true
  end.

(** The only white space is the plain space, and never two in a row. *)
Fixpoint singleSpaced (s : jsstring) : bool :=
  match s with
  | [] => true
  | c :: rest =>
      (negb (is_space c) || (c =? 32)%N)
      && match rest with
         | d :: _ => negb (is_space c && is_space d)
         | [] => true
         end
      && singleSpaced rest
  end.

End Text.

(** ** The local-storage feedback service *)

Module FeedbackService.

Definition STORAGE_KEY : jsstring := js "react-grab:feedback-records".

Inductive FeedbackStatus : Type :=
| pending
| in_progress
| resolved
| invalid.

(** [componentName] is [None] for [null] and for a missing property, which
    every reader of the field treats alike. *)
Record FeedbackCreateInput : Type := mkInput {
  elementLabel : jsstring;
  selector : jsstring;
  tagName : jsstring;
  textPreview : jsstring;
  context : jsstring;
  pageUrl : jsstring;
  htmlPreview : jsstring;
  feedbackText : jsstring;
  componentName : option jsstring
}.

(** A stored record: the four fields the service sets, and the fields of
    the input it was created from, which the object spread copies. A time
    stamp is the ISO text of [toISOString], kept as the millisecond instant
    it denotes, which is what [new Date(text).getTime()] reads back. *)
Record FeedbackRecord : Type := mkRecord {
  id : jsstring;
  status : FeedbackStatus;
  createdAt : Z;
  updatedAt : Z;
  fields : FeedbackCreateInput
}.

(** What [JSON.parse] can return. The service reads the elements of an
    array as records without looking at them ([as FeedbackRecord[]]); here
    an array holds records, as that cast declares, and [ParsedStore] below
    takes the array as it is. *)
Inductive json : Type :=
| JNull
| JBool (b : bool)
| JNumber (n : Z)
| JString (s : jsstring)
| JObject
| JArray (records : list FeedbackRecord).

(** A text kept in the storage, told apart by what [JSON.parse] makes of
    it: [Malformed text] is a text it rejects with a [SyntaxError] (the
    empty text is one), [Serialized value] one it reads as [value], which
    is also the text [JSON.stringify value] writes. *)
Inductive StoredText : Type :=
| Malformed (text : jsstring)
| Serialized (value : json).

Inductive completion (A : Type) : Type :=
| Normal (a : A)
| Throw.
Arguments Normal {A} a.
Arguments Throw {A}.

Definition JSON_parse (raw : StoredText) : completion json :=
  match raw with
  | Malformed _ => Throw
  | Serialized value => Normal value
  end.

Definition JSON_stringify (records : list FeedbackRecord) : StoredText :=
  Serialized (JArray records).

(** [!raw] on a text. *)
Definition falsyText (raw : StoredText) : bool :=
  match raw with
  | Malformed [] => true
  | _ => false
  end.

(** [window.localStorage], or [None] where [window] is undefined. Writes
    are taken to succeed. *)
Definition Window : Type := option (gmap jsstring StoredText).

Definition readFromStorage (window : Window) : list FeedbackRecord :=
  match window with
  | None => []
  | Some localStorage =>
      match localStorage !! STORAGE_KEY with
      | None => []
      | Some raw =>
          if falsyText raw then []
          else
            match JSON_parse raw with
            | Normal (JArray parsed) => parsed
            | Normal _ => []
            | Throw => []
            end
      end
  end.

Definition persist (records : list FeedbackRecord) (window : Window) : Window :=
  match window with
  | None => None
  | Some localStorage =>
      Some (<[STORAGE_KEY := JSON_stringify records]> localStorage)
  end.

(** [Array.prototype.sort] with a comparator: the sort is stable, and for a
    comparator that orders its arguments consistently the result is the one
    arrangement that is sorted and stable. Insertion from the right, each
    element in front of the first one it does not follow, builds it. *)
Fixpoint sort_insert {A : Type} (compare : A -> A -> Z) (x : A) (sorted : list A)
    : list A :=
  match sorted with
  | [] => [x]
  | y :: rest =>
      if decide (compare x y <= 0)%Z then x :: sorted
      else y :: sort_insert compare x rest
  end.

Definition sort {A : Type} (compare : A -> A -> Z) (array : list A) : list A :=
  foldr (sort_insert compare) [] array.

(** [create]; [timestamp] is the instant [new Date()] reads and [newId] the
    identifier [createId] draws. The input is spread last, and its type has
    none of the four fields set before it. *)
Definition create (timestamp : Z) (newId : jsstring) (input : FeedbackCreateInput)
    (window : Window) : FeedbackRecord * Window :=
  let record :=
    {| id := newId;
       status := pending;
       createdAt := timestamp;
       updatedAt := timestamp;
       fields := input |} in
  let records := readFromStorage window in
  (record, persist (record :: records) window).

(** [updateStatus]; [now] is the instant [new Date()] reads. The result is
    [None] for [null]. *)
Definition updateStatus (now : Z) (target : jsstring) (newStatus : FeedbackStatus)
    (window : Window) : option FeedbackRecord * Window :=
  let records := readFromStorage window in
  match list_find (fun record => id record = target) records with
  | None => (None, window)
  | Some (index, found) =>
      let updated :=
        {| id := id found;
           status := newStatus;
           updatedAt := now;
           createdAt := createdAt found;
           fields := fields found |} in
      (Some updated, persist (<[index := updated]> records) window)
  end.

(** The stored content the service cannot use: nothing under the key, a
    text that does not parse, or a parsed value that is no array. *)
Definition unusable (localStorage : gmap jsstring StoredText) : Prop :=
  match localStorage !! STORAGE_KEY with
  | None => True
  | Some (Malformed _) => True
  | Some (Serialized (JArray _)) => False
  | Some (Serialized _) => True
  end.

(** Newest first. *)
Definition newestFirst (first second : FeedbackRecord) : Prop :=
  (createdAt second <= createdAt first)%Z.

(** How a record reads before and after [updateStatus now target newStatus]:
    its id, its creation stamp and its fields stay; a record with another
    id stays whole, and a record that changed carries the new status and
    [now] as [updatedAt]. *)
Definition sameEntry (now : Z) (target : jsstring) (newStatus : FeedbackStatus)
    (before after : FeedbackRecord) : Prop :=
  id after = id before
  /\ createdAt after = createdAt before
  /\ fields after = fields before
  /\ (id before <> target -> after = before)
  /\ (after <> before -> status after = newStatus /\ updatedAt after = now).

(** [list]. *)
Definition list (window : Window) : Datatypes.list FeedbackRecord :=
  let records := readFromStorage window in
  sort (fun first second => createdAt second - createdAt first)%Z records.

End FeedbackService.

(** ** The feedback service over whatever the storage holds *)

Module ParsedStore.

(** A value [JSON.parse] returns. A number is kept as the text that
    denotes it; the properties of an object are in the order in which the
    object enumerates them. *)
Inductive value : Type :=
| VNull
| VBool (b : bool)
| VNumber (literal : jsstring)
| VString (text : jsstring)
| VArray (elements : list value)
| VObject (properties : list (jsstring * value)).

(** A text kept in the storage, told apart by what [JSON.parse] makes of
    it: [Malformed text] is a text it rejects with a [SyntaxError] (the
    empty text is one), [Serialized parsed] one it reads as [parsed], which
    is also the text [JSON.stringify parsed] writes. *)
Inductive StoredText : Type :=
| Malformed (text : jsstring)
| Serialized (parsed : value).

Definition JSON_parse (raw : StoredText) : FeedbackService.completion value :=
  match raw with
  | Malformed _ => FeedbackService.Throw
  | Serialized parsed => FeedbackService.Normal parsed
  end.

Definition JSON_stringify (records : list value) : StoredText :=
  Serialized (VArray records).

(** [!raw] on a text. *)
Definition falsyText (raw : StoredText) : bool :=
  match raw with
  | Malformed [] => true
  | _ => false
  end.

(** [window.localStorage], or [None] where [window] is undefined. *)
Definition Window : Type := option (gmap jsstring StoredText).

(** [readFromStorage]: the parsed array as it is, whatever its elements. *)
Definition readFromStorage (window : Window) : list value :=
  match window with
  | None => []
  | Some localStorage =>
      match localStorage !! FeedbackService.STORAGE_KEY with
      | None => []
      | Some raw =>
          if falsyText raw then []
          else
            match JSON_parse raw with
            | FeedbackService.Normal (VArray parsed) => parsed
            | FeedbackService.Normal _ => []
            | FeedbackService.Throw => []
            end
      end
  end.

Definition persist (records : list value) (window : Window) : Window :=
  match window with
  | None => None
  | Some localStorage =>
      Some (<[FeedbackService.STORAGE_KEY := JSON_stringify records]> localStorage)
  end.

(** The own property of a name, [None] for [undefined]. *)
Definition getOwn (name : jsstring) (properties : list (jsstring * value))
    : option value :=
  (fun found => found.2.2) <$> list_find (fun property => property.1 = name) properties.

(** [record.id]: reading a property of [null] throws a [TypeError]; a
    value that is no object has no [id]. *)
Definition recordId (record : value) : FeedbackService.completion (option value) :=
  match record with
  | VNull => FeedbackService.Throw
  | VObject properties => FeedbackService.Normal (getOwn (js "id") properties)
  | _ => FeedbackService.Normal None
  end.

(** [found === id] for what reading [record.id] gave: only a text is
    strictly equal to a text. *)
Definition strictlyEqual (found : option value) (id : jsstring) : bool :=
  match found with
  | Some (VString text) => bool_decide (text = id)
  | _ => false
  end.

(** [records.findIndex((record) => record.id === id)]: the elements are
    tested in their order up to the first that passes; [None] for -1. *)
Fixpoint findIndex (id : jsstring) (records : list value)
    : FeedbackService.completion (option nat) :=
  match records with
  | [] => FeedbackService.Normal None
  | record :: rest =>
      match recordId record with
      | FeedbackService.Throw => FeedbackService.Throw
      | FeedbackService.Normal found =>
          if strictlyEqual found id then FeedbackService.Normal (Some 0)
          else
            match findIndex id rest with
            | FeedbackService.Throw => FeedbackService.Throw
            | FeedbackService.Normal index => FeedbackService.Normal (S <$> index)
            end
      end
  end.

(** The own enumerable properties an object spread copies: those of an
    object, the indices of an array or of a text, none of any other
    value. *)
Definition ownProperties (record : value) : list (jsstring * value) :=
  match record with
  | VObject properties => properties
  | VArray elements => imap (fun index element => (js (pretty index), element)) elements
  | VString text => imap (fun index unit => (js (pretty index), VString [unit])) text
  | _ => []
  end.

(** A property set in an object literal after a spread: it takes the
    place of the property of its name, or comes last. *)
Fixpoint assign (name : jsstring) (new : value) (properties : list (jsstring * value))
    : list (jsstring * value) :=
  match properties with
  | [] => [(name, new)]
  | (key, old) :: rest =>
      if decide (key = name) then (name, new) :: rest
      else (key, old) :: assign name new rest
  end.

(** [updateStatus]; [now] is the text [new Date().toISOString()] returns.
    The promise is rejected for [Throw]; the result is [None] for [null]. *)
Definition updateStatus (now : jsstring) (id status : jsstring) (window : Window)
    : FeedbackService.completion (option value * Window) :=
  let records := readFromStorage window in
  match findIndex id records with
  | FeedbackService.Throw => FeedbackService.Throw
  | FeedbackService.Normal None => FeedbackService.Normal (None, window)
  | FeedbackService.Normal (Some index) =>
      let updated :=
        VObject
          (assign (js "updatedAt") (VString now)
             (assign (js "status") (VString status)
                (ownProperties (default VNull (records !! index))))) in
      FeedbackService.Normal (Some updated, persist (<[index := updated]> records) window)
  end.

(** The record is an object whose [id] is the text [id]. *)
Definition carries (id : jsstring) (record : value) : Prop :=
  exists properties,
    record = VObject properties /\ getOwn (js "id") properties = Some (VString id).

End ParsedStore.

(** ** The state of the playground page *)

Module Page.

Import FeedbackService.

#[global] Instance FeedbackStatus_eq_dec : EqDecision FeedbackStatus.
Proof. solve_decision. Defined.

Inductive StatusFilter : Type :=
| all
| only (value : FeedbackStatus).

(** The labels of [STATUS_META]: 未处理, 处理中, 已处理, 已失效. *)
Definition statusLabel (value : FeedbackStatus) : jsstring :=
  match value with
  | pending => [26410; 22788; 29702]
  | in_progress => [22788; 29702; 20013]
  | resolved => [24050; 22788; 29702]
  | invalid => [24050; 22833; 25928]
  end%N.

(** The placeholder of an empty summary: (暂无正文). *)
Definition emptySummary : jsstring := [40; 26242; 26080; 27491; 25991; 41]%N.

(** [summarizeFeedback]. *)
Definition summarizeFeedback (text : jsstring) : jsstring :=
  let trimmed := trim text in
  if negb (truthy trimmed) then emptySummary
  else if decide (60 < length trimmed) then slice0 60 trimmed ++ js "..."
       else trimmed.

(** The counters of [statusCounts]. *)
Record StatusCounts : Type := mkCounts {
  pendingCount : nat;
  inProgressCount : nat;
  resolvedCount : nat;
  invalidCount : nat
}.

(** [accumulator[record.status] += 1]. *)
Definition countRecord (accumulator : StatusCounts) (record : FeedbackRecord)
    : StatusCounts :=
  match status record with
  | pending =>
      {| pendingCount := pendingCount accumulator + 1;
         inProgressCount := inProgressCount accumulator;
         resolvedCount := resolvedCount accumulator;
         invalidCount := invalidCount accumulator |}
  | in_progress =>
      {| pendingCount := pendingCount accumulator;
         inProgressCount := inProgressCount accumulator + 1;
         resolvedCount := resolvedCount accumulator;
         invalidCount := invalidCount accumulator |}
  | resolved =>
      {| pendingCount := pendingCount accumulator;
         inProgressCount := inProgressCount accumulator;
         resolvedCount := resolvedCount accumulator + 1;
         invalidCount := invalidCount accumulator |}
  | invalid =>
      {| pendingCount := pendingCount accumulator;
         inProgressCount := inProgressCount accumulator;
         resolvedCount := resolvedCount accumulator;
         invalidCount := invalidCount accumulator + 1 |}
  end.

(** [statusCounts]: [records.reduce] from four zeros. *)
Definition statusCounts (records : Datatypes.list FeedbackRecord) : StatusCounts :=
  foldl countRecord
    {| pendingCount := 0; inProgressCount := 0; resolvedCount := 0; invalidCount := 0 |}
    records.

(** [statusCounts[value]]. *)
Definition countOf (value : FeedbackStatus) (counts : StatusCounts) : nat :=
  match value with
  | pending => pendingCount counts
  | in_progress => inProgressCount counts
  | resolved => resolvedCount counts
  | invalid => invalidCount counts
  end.

(** [filteredRecords]. *)
Definition filteredRecords (statusFilter : StatusFilter)
    (records : Datatypes.list FeedbackRecord) : Datatypes.list FeedbackRecord :=
  match statusFilter with
  | all => records
  | only value => filter (fun record => status record = value) records
  end.

(** An entry of the activity log. *)
Record LogEntry : Type := mkLog {
  logType : jsstring;
  message : jsstring;
  time : Z
}.

(** The state of the component, and the storage it talks to. The draft and
    the token live in [controller]; the state of the picker is not part of
    it. *)
Record State : Type := mkState {
  logs : Datatypes.list LogEntry;
  controller : App.Controller;
  records : Datatypes.list FeedbackRecord;
  statusFilter : StatusFilter;
  isSubmitting : bool;
  isLoadingRecords : bool;
  toast : option jsstring;
  updatingRecordIds : gset jsstring;
  window : Window
}.

(** The state before the first effect ran. *)
Definition initialState (window : Window) : State :=
  {| logs := [];
     controller := App.initial;
     records := [];
     statusFilter := all;
     isSubmitting := false;
     isLoadingRecords := true;
     toast := None;
     updatingRecordIds := ∅;
     window := window |}.

Definition setLogs (f : Datatypes.list LogEntry -> Datatypes.list LogEntry) (st : State) : State :=
  mkState (f (logs st)) (controller st) (records st) (statusFilter st)
    (isSubmitting st) (isLoadingRecords st) (toast st) (updatingRecordIds st) (window st).

Definition setDraft (updater : option App.FeedbackDraft -> option App.FeedbackDraft)
    (st : State) : State :=
  mkState (logs st) (App.setDraft updater (controller st)) (records st) (statusFilter st)
    (isSubmitting st) (isLoadingRecords st) (toast st) (updatingRecordIds st) (window st).

Definition setRecords
    (f : Datatypes.list FeedbackRecord -> Datatypes.list FeedbackRecord) (st : State) : State :=
  mkState (logs st) (controller st) (f (records st)) (statusFilter st)
    (isSubmitting st) (isLoadingRecords st) (toast st) (updatingRecordIds st) (window st).

Definition setIsSubmitting (value : bool) (st : State) : State :=
  mkState (logs st) (controller st) (records st) (statusFilter st)
    value (isLoadingRecords st) (toast st) (updatingRecordIds st) (window st).

Definition setIsLoadingRecords (value : bool) (st : State) : State :=
  mkState (logs st) (controller st) (records st) (statusFilter st)
    (isSubmitting st) value (toast st) (updatingRecordIds st) (window st).

Definition setToast (value : option jsstring) (st : State) : State :=
  mkState (logs st) (controller st) (records st) (statusFilter st)
    (isSubmitting st) (isLoadingRecords st) value (updatingRecordIds st) (window st).

Definition setUpdatingRecordIds (f : gset jsstring -> gset jsstring) (st : State) : State :=
  mkState (logs st) (controller st) (records st) (statusFilter st)
    (isSubmitting st) (isLoadingRecords st) (toast st) (f (updatingRecordIds st)) (window st).

(** What a call of the service leaves in the storage. *)
Definition withWindow (window' : Window) (st : State) : State :=
  mkState (logs st) (controller st) (records st) (statusFilter st)
    (isSubmitting st) (isLoadingRecords st) (toast st) (updatingRecordIds st) window'.

(** [addLog]; [now] is the instant [new Date()] reads. *)
Definition addLog (type text : jsstring) (now : Z) (st : State) : State :=
  setLogs (fun prev => prev ++ [ {| logType := type; message := text; time := now |} ]) st.

Definition showToast (text : jsstring) (st : State) : State :=
  setToast (Some text) st.

(** The first effect, on a mounted component: the list is loaded and the
    loading mark is taken down. *)
Definition loadRecords (st : State) : State :=
  setIsLoadingRecords false (setRecords (fun _ => FeedbackService.list (window st)) st).

(** [toggleUpdatingRecord]. *)
Definition toggleUpdatingRecord (target : jsstring) (isUpdating : bool) (st : State)
    : State :=
  setUpdatingRecordIds
    (fun previous => if isUpdating then {[target]} ∪ previous else previous ∖ {[target]})
    st.

(** The toasts: 请先输入反馈内容, 反馈已提交并存储, 提交失败，请重试, 记录不存在,
    状态已更新, 状态更新失败; and the log text 新建反馈 in front of an id. *)
Definition toastNeedsText : jsstring :=
  [35831; 20808; 36755; 20837; 21453; 39304; 20869; 23481]%N.
Definition toastStored : jsstring :=
  [21453; 39304; 24050; 25552; 20132; 24182; 23384; 20648]%N.
Definition toastSubmitFailed : jsstring :=
  [25552; 20132; 22833; 36133; 65292; 35831; 37325; 35797]%N.
Definition toastMissing : jsstring := [35760; 24405; 19981; 23384; 22312]%N.
Definition toastUpdated : jsstring := [29366; 24577; 24050; 26356; 26032]%N.
Definition toastUpdateFailed : jsstring :=
  [29366; 24577; 26356; 26032; 22833; 36133]%N.
Definition logCreated : jsstring := [26032; 24314; 21453; 39304; 32]%N.
Definition logArrow : jsstring := [32; 8594; 32]%N.

(** The input [handleSubmitDraft] hands to [create]. *)
Definition submitInput (draft : App.FeedbackDraft) (trimmed : jsstring)
    : FeedbackCreateInput :=
  {| elementLabel := App.elementLabel (App.snapshot draft);
     selector := App.selector (App.snapshot draft);
     tagName := App.tagName (App.snapshot draft);
     textPreview := App.textPreview (App.snapshot draft);
     context := App.context draft;
     pageUrl := App.pageUrl (App.snapshot draft);
     htmlPreview := App.htmlPreview (App.snapshot draft);
     feedbackText := trimmed;
     componentName := App.componentName draft |}.

(** [handleSubmitDraft] up to its [await]: the checks, the submitting mark
    and the call of [create], whose record the promise will bring; [None]
    when no call was made. *)
Definition handleSubmitDraft (timestamp : Z) (newId : jsstring) (st : State)
    : State * option FeedbackRecord :=
  match App.draft (controller st) with
  | None => (st, None)
  | Some draft =>
      let trimmed := trim (App.feedbackText draft) in
      if negb (truthy trimmed) then (showToast toastNeedsText st, None)
      else
        let st := setIsSubmitting true st in
        let created := create timestamp newId (submitInput draft trimmed) (window st) in
        (withWindow created.2 st, Some created.1)
  end.

(** [handleSubmitDraft] from its [await] on: [outcome] is what the promise
    settled with, the [try] branch for a record, the [catch] branch for a
    failure, and [finally] after either. *)
Definition submitSettled (outcome : completion FeedbackRecord) (now : Z) (st : State)
    : State :=
  let st :=
    match outcome with
    | Normal record =>
        let st := setRecords (fun previous => record :: previous) st in
        let st := addLog (js "feedback") (logCreated ++ id record) now st in
        let st := showToast toastStored st in
        setDraft (App.editFeedback []) st
    | Throw => showToast toastSubmitFailed st
    end in
  setIsSubmitting false st.

(** A submission from the click to the end, the service answering with the
    record it stored. *)
Definition submit (timestamp : Z) (newId : jsstring) (now : Z) (st : State) : State :=
  match handleSubmitDraft timestamp newId st with
  | (st, Some record) => submitSettled (Normal record) now st
  | (st, None) => st
  end.

(** [handleStatusChange] up to its [await]; [None] when the status is the
    one the record has and nothing happens. *)
Definition handleStatusChange (record : FeedbackRecord) (value : FeedbackStatus)
    (now : Z) (st : State) : State * option (option FeedbackRecord) :=
  if decide (status record = value) then (st, None)
  else
    let st := toggleUpdatingRecord (id record) true st in
    let changed := updateStatus now (id record) value (window st) in
    (withWindow changed.2 st, Some changed.1).

(** [handleStatusChange] from its [await] on. *)
Definition statusChangeSettled (record : FeedbackRecord) (value : FeedbackStatus)
    (outcome : completion (option FeedbackRecord)) (now : Z) (st : State) : State :=
  let st :=
    match outcome with
    | Normal None => showToast toastMissing st
    | Normal (Some updated) =>
        let st :=
          setRecords
            (fun previous =>
               (fun item => if decide (id item = id updated) then updated else item)
                 <$> previous)
            st in
        let st := addLog (js "update") (id record ++ logArrow ++ statusLabel value) now st in
        showToast toastUpdated st
    | Throw => showToast toastUpdateFailed st
    end in
  toggleUpdatingRecord (id record) false st.

(** A status change from the choice to the end, the service answering. *)
Definition changeStatus (record : FeedbackRecord) (value : FeedbackStatus)
    (now logTime : Z) (st : State) : State :=
  match handleStatusChange record value now st with
  | (st, Some answer) => statusChangeSettled record value (Normal answer) logTime st
  | (st, None) => st
  end.

(** [handleResetDraft]. *)
Definition handleResetDraft (st : State) : State := setDraft (fun _ => None) st.

(** The page shows what the service would list, and no id twice. *)
Definition inStep (st : State) : Prop :=
  records st = FeedbackService.list (window st)
  /\ NoDup (id <$> records st).

End Page.

(** ** The Remix route: its action, its loader and its page *)

Module Route.

(** An entry of a [FormData] holds a text or a file. *)
Inductive FormDataEntryValue : Type :=
| TextEntry (text : jsstring)
| FileEntry (name : jsstring).

#[global] Instance FormDataEntryValue_eq_dec : EqDecision FormDataEntryValue.
Proof. solve_decision. Defined.

(** [toString] of an entry: a text is itself, a file reads [[object File]]. *)
Definition toString (value : FormDataEntryValue) : jsstring :=
  match value with
  | TextEntry text => text
  | FileEntry _ => js "[object File]"
  end.

(** A [FormData]: its entries in the order they were appended. *)
Definition FormData : Type := list (jsstring * FormDataEntryValue).

Definition append (name value : jsstring) (formData : FormData) : FormData :=
  formData ++ [(name, TextEntry value)].

(** [formData.get]: the first entry of the name, [None] for [null]. *)
Definition get (name : jsstring) (formData : FormData) : option FormDataEntryValue :=
  (fun found => found.2.2) <$> list_find (fun entry => entry.1 = name) formData.

(** The status of a stored feedback, and the text it is written as. *)
Inductive FeedbackStatus : Type :=
| PENDING
| IN_PROGRESS
| RESOLVED
| INVALID.

#[global] Instance FeedbackStatus_eq_dec : EqDecision FeedbackStatus.
Proof. solve_decision. Defined.

Definition statusName (value : FeedbackStatus) : jsstring :=
  match value with
  | PENDING => js "PENDING"
  | IN_PROGRESS => js "IN_PROGRESS"
  | RESOLVED => js "RESOLVED"
  | INVALID => js "INVALID"
  end.

Definition STATUS_ORDER : list FeedbackStatus :=
  [PENDING; IN_PROGRESS; RESOLVED; INVALID].

(** [VALID_STATUS.has]. *)
Definition VALID_STATUS_has (text : jsstring) : bool :=
  bool_decide (text ∈ statusName <$> STATUS_ORDER).

(** The [data] of [db.feedback.create]. A required value is a text or
    [undefined], the component name a text or [null]; the status is the
    text the call is given. *)
Record CreateData : Type := mkData {
  pageUrl : option jsstring;
  selector : option jsstring;
  elementLabel : option jsstring;
  htmlPreview : option jsstring;
  context : option jsstring;
  feedbackText : option jsstring;
  componentName : option jsstring;
  status : jsstring
}.

(** What the action does with a request: it answers at once with a
    message and status 400, or it calls the database client and wraps the
    row the call returns. *)
Inductive Plan : Type :=
| badRequest (message : jsstring)
| dbCreate (data : CreateData)
| dbUpdate (id status : jsstring).

Definition requiredFields : list jsstring :=
  [ js "pageUrl"; js "selector"; js "elementLabel"; js "htmlPreview";
    js "context"; js "feedbackText" ].

(** [values[key]] for a key of [requiredFields]. *)
Definition values (formData : FormData) (key : jsstring) : option jsstring :=
  (fun entry => trim (toString entry)) <$> get key formData.

(** [!value] on a text or [undefined]. *)
Definition falsy (value : option jsstring) : bool :=
  match value with
  | Some (_ :: _) => false
  | _ => true
  end.

(** The messages: 缺少必要字段： in front of a key, 无效的状态参数, 未知操作. *)
Definition missingField : jsstring :=
  [32570; 23569; 24517; 35201; 23383; 27573; 65306]%N.
Definition invalidStatus : jsstring :=
  [26080; 25928; 30340; 29366; 24577; 21442; 25968]%N.
Definition unknownIntent : jsstring := [26410; 30693; 25805; 20316]%N.

(** [value || null]. *)
Definition orNull (value : option jsstring) : option jsstring :=
  if falsy value then None else value.

Section Server.

(** [String.prototype.toUpperCase]. *)
Variable toUpperCase : jsstring -> jsstring.

(** [action], up to the call of the database client. The [tagName] of a
    [create] form is read and handed to nobody. *)
Definition action (formData : FormData) : Plan :=
  let intent := get (js "_intent") formData in
  if decide (intent = Some (TextEntry (js "create"))) then
    match list_find (fun key => falsy (values formData key) = true) requiredFields with
    | Some (_, key) => badRequest (missingField ++ key)
    | None =>
        let componentName := orNull (toString <$> get (js "componentName") formData) in
        dbCreate
          {| pageUrl := values formData (js "pageUrl");
             selector := values formData (js "selector");
             elementLabel := values formData (js "elementLabel");
             htmlPreview := values formData (js "htmlPreview");
             context := values formData (js "context");
             feedbackText := values formData (js "feedbackText");
             componentName := componentName;
             status := js "PENDING" |}
    end
  else if decide (intent = Some (TextEntry (js "update-status"))) then
    let id := toString <$> get (js "id") formData in
    let status := (fun entry => toUpperCase (toString entry)) <$> get (js "status") formData in
    match id, status with
    | Some id, Some status =>
        if falsy (Some id) || falsy (Some status) || negb (VALID_STATUS_has status)
        then badRequest invalidStatus
        else dbUpdate id status
    | _, _ => badRequest invalidStatus
    end
  else badRequest unknownIntent.

(** [loader], up to the call of the database client: the [where] of
    [findMany] and the [activeStatus] of the answer. [statusParam] is what
    [searchParams.get] returns. *)
Definition loader (statusParam : option jsstring) : option jsstring * jsstring :=
  let statusParam := toUpperCase <$> statusParam in
  let whereStatus :=
    match statusParam with
    | Some text =>
        if negb (falsy (Some text)) && VALID_STATUS_has text then Some text else None
    | None => None
    end in
  (whereStatus, default (js "ALL") whereStatus).

End Server.

(** A stored feedback, as far as the counters and the filter of the page
    read it. *)
Record Feedback : Type := mkFeedback {
  rowId : jsstring;
  rowStatus : FeedbackStatus
}.

(** The counters of [statusCounts], with the one of [ALL]. *)
Record StatusCounts : Type := mkCounts {
  countALL : nat;
  countPENDING : nat;
  countIN_PROGRESS : nat;
  countRESOLVED : nat;
  countINVALID : nat
}.

(** [acc.ALL += 1; acc[record.status] += 1]. *)
Definition countRecord (acc : StatusCounts) (record : Feedback) : StatusCounts :=
  let acc :=
    {| countALL := countALL acc + 1;
       countPENDING := countPENDING acc;
       countIN_PROGRESS := countIN_PROGRESS acc;
       countRESOLVED := countRESOLVED acc;
       countINVALID := countINVALID acc |} in
  match rowStatus record with
  | PENDING =>
      {| countALL := countALL acc;
         countPENDING := countPENDING acc + 1;
         countIN_PROGRESS := countIN_PROGRESS acc;
         countRESOLVED := countRESOLVED acc;
         countINVALID := countINVALID acc |}
  | IN_PROGRESS =>
      {| countALL := countALL acc;
         countPENDING := countPENDING acc;
         countIN_PROGRESS := countIN_PROGRESS acc + 1;
         countRESOLVED := countRESOLVED acc;
         countINVALID := countINVALID acc |}
  | RESOLVED =>
      {| countALL := countALL acc;
         countPENDING := countPENDING acc;
         countIN_PROGRESS := countIN_PROGRESS acc;
         countRESOLVED := countRESOLVED acc + 1;
         countINVALID := countINVALID acc |}
  | INVALID =>
      {| countALL := countALL acc;
         countPENDING := countPENDING acc;
         countIN_PROGRESS := countIN_PROGRESS acc;
         countRESOLVED := countRESOLVED acc;
         countINVALID := countINVALID acc + 1 |}
  end.

Definition statusCounts (records : list Feedback) : StatusCounts :=
  foldl countRecord
    {| countALL := 0; countPENDING := 0; countIN_PROGRESS := 0;
       countRESOLVED := 0; countINVALID := 0 |}
    records.

Definition countOf (value : FeedbackStatus) (counts : StatusCounts) : nat :=
  match value with
  | PENDING => countPENDING counts
  | IN_PROGRESS => countIN_PROGRESS counts
  | RESOLVED => countRESOLVED counts
  | INVALID => countINVALID counts
  end.

(** [filteredRecords]; [activeStatus] is [None] for [ALL]. *)
Definition filteredRecords (activeStatus : option FeedbackStatus)
    (records : list Feedback) : list Feedback :=
  match activeStatus with
  | None => records
  | Some value => filter (fun record => rowStatus record = value) records
  end.

(** The error messages of the page: 请先选中一个页面元素, 请填写反馈内容. *)
Definition errorNoDraft : jsstring :=
  [35831; 20808; 36873; 20013; 19968; 20010; 39029; 38754; 20803; 32032]%N.
Definition errorNoText : jsstring :=
  [35831; 22635; 20889; 21453; 39304; 20869; 23481]%N.

(** The form [handleSubmitDraft] fills for a draft. *)
Definition submitForm (draft : App.FeedbackDraft) : FormData :=
  let formData := [] in
  let formData := append (js "_intent") (js "create") formData in
  let formData := append (js "pageUrl") (App.pageUrl (App.snapshot draft)) formData in
  let formData := append (js "selector") (App.selector (App.snapshot draft)) formData in
  let formData := append (js "elementLabel") (App.elementLabel (App.snapshot draft)) formData in
  let formData := append (js "htmlPreview") (App.htmlPreview (App.snapshot draft)) formData in
  let formData := append (js "context") (App.context draft) formData in
  let formData := append (js "feedbackText") (trim (App.feedbackText draft)) formData in
  let formData := append (js "componentName") (default [] (App.componentName draft)) formData in
  append (js "tagName") (App.tagName (App.snapshot draft)) formData.

(** [handleSubmitDraft]: the error message it sets, or the form it
    submits. *)
Definition handleSubmitDraft (draft : option App.FeedbackDraft) : jsstring + FormData :=
  match draft with
  | None => inl errorNoDraft
  | Some draft =>
      if negb (truthy (trim (App.feedbackText draft))) then inl errorNoText
      else inr (submitForm draft)
  end.

(** [handleStatusChange]: the form it submits. *)
Definition handleStatusChange (id : jsstring) (value : FeedbackStatus) : FormData :=
  let formData := [] in
  let formData := append (js "_intent") (js "update-status") formData in
  let formData := append (js "id") id formData in
  append (js "status") (statusName value) formData.

End Route.

(** ** The database client of the route *)

Module DbServer.

(** A client is known by the number of clients created before it. *)
Definition PrismaClient : Type := nat.

(** The Node process as the module sees it: how many clients were created,
    and [global.__remix_prisma__], [None] for [undefined]. *)
Record Process : Type := mkProcess {
  created : nat;
  remix_prisma : option PrismaClient
}.

(** [new PrismaClient()]. *)
Definition newPrismaClient (process : Process) : PrismaClient * Process :=
  (created process,
   {| created := S (created process); remix_prisma := remix_prisma process |}).

(** One evaluation of the module: the [db] it exports and the process it
    leaves. [NODE_ENV] is [process.env.NODE_ENV], [None] for [undefined]. *)
Definition evaluate (NODE_ENV : option jsstring) (process : Process)
    : PrismaClient * Process :=
  if decide (NODE_ENV = Some (js "production")) then newPrismaClient process
  else
    match remix_prisma process with
    | None =>
        let made := newPrismaClient process in
        (made.1, {| created := created made.2; remix_prisma := Some made.1 |})
    | Some client => (client, process)
    end.

(** The module evaluated again and again, as a development server does on
    every reload: the clients exported, oldest first. *)
Fixpoint reload (NODE_ENV : option jsstring) (times : nat) (process : Process)
    : list PrismaClient * Process :=
  match times with
  | 0 => ([], process)
  | S times =>
      let first := evaluate NODE_ENV process in
      let rest := reload NODE_ENV times first.2 in
      (first.1 :: rest.1, rest.2)
  end.

End DbServer.

(** ** The server entry of the route *)

Module EntryServer.

(** [Headers]: one value per name, names compared without case. A value
    is kept as it is given, as it is for one without outer white space. *)
Definition Headers : Type := gmap jsstring jsstring.

Definition Headers_set (name value : jsstring) (headers : Headers) : Headers :=
  <[toLowerCase name := value]> headers.

(** A [Response], without its body: its status, and the headers, which
    are copied when it is made. *)
Record Response : Type := mkResponse {
  status : Z;
  headers : Headers
}.

Section Render.

(** What React reports as an error. *)
Variable Error : Type.

(** The callbacks [renderToPipeableStream] may call; what an abort of the
    rendering causes, it causes through them. *)
Inductive Callback : Type :=
| onAllReady
| onShellReady
| onShellError (error : Error)
| onError (error : Error).

(** A promise settles once. *)
Inductive Promise : Type :=
| pending
| resolved (response : Response)
| rejected (error : Error).

Definition resolve (response : Response) (promise : Promise) : Promise :=
  match promise with
  | pending => resolved response
  | _ => promise
  end.

Definition reject (error : Error) (promise : Promise) : Promise :=
  match promise with
  | pending => rejected error
  | _ => promise
  end.

(** What the callbacks of one request share: [didError], the headers
    object handed in, the promise returned, and what was written to the
    console. *)
Record Rendering : Type := mkRendering {
  didError : bool;
  responseHeaders : Headers;
  promise : Promise;
  console : list Error
}.

Definition start (responseHeaders : Headers) : Rendering :=
  {| didError := false;
     responseHeaders := responseHeaders;
     promise := pending;
     console := [] |}.

(** [new Response(stream, { headers, status })], the constructor the
    platform provides: the response, or [None] when the constructor
    throws. The one of the Fetch standard throws for a status outside
    200..599 and, the body being a stream, for a status that admits no
    body. *)
Variable newResponse : Z -> Headers -> option Response.

(** The body of the callback that answers: [onAllReady] for a bot,
    [onShellReady] for a browser. When the constructor throws, the
    callback ends there, with the header set and [resolve] not called. *)
Definition ready (responseStatusCode : Z) (rendering : Rendering) : Rendering :=
  let responseHeaders :=
    Headers_set (js "Content-Type") (js "text/html") (responseHeaders rendering) in
  {| didError := didError rendering;
     responseHeaders := responseHeaders;
     promise :=
       match
         newResponse (if didError rendering then 500 else responseStatusCode)
           responseHeaders
       with
       | Some response => resolve response (promise rendering)
       | None => promise rendering
       end;
     console := console rendering |}.

Definition shellError (error : Error) (rendering : Rendering) : Rendering :=
  {| didError := didError rendering;
     responseHeaders := responseHeaders rendering;
     promise := reject error (promise rendering);
     console := console rendering |}.

Definition error (error : Error) (rendering : Rendering) : Rendering :=
  {| didError := true;
     responseHeaders := responseHeaders rendering;
     promise := promise rendering;
     console := console rendering ++ [error] |}.

(** The callbacks [handleBotRequest] passes. *)
Definition handleBotRequest (responseStatusCode : Z) (rendering : Rendering)
    (callback : Callback) : Rendering :=
  match callback with
  | onAllReady => ready responseStatusCode rendering
  | onShellReady => rendering
  | onShellError e => shellError e rendering
  | onError e => error e rendering
  end.

(** The callbacks [handleBrowserRequest] passes. *)
Definition handleBrowserRequest (responseStatusCode : Z) (rendering : Rendering)
    (callback : Callback) : Rendering :=
  match callback with
  | onShellReady => ready responseStatusCode rendering
  | onAllReady => rendering
  | onShellError e => shellError e rendering
  | onError e => error e rendering
  end.

(** [isbot], from the package of that name. *)
Variable isbot : option jsstring -> bool.

(** [handleRequest] over the callbacks React makes, in their order;
    [userAgent] is [request.headers.get("user-agent")]. *)
Definition handleRequest (userAgent : option jsstring) (responseStatusCode : Z)
    (responseHeaders : Headers) (callbacks : list Callback) : Rendering :=
  if isbot userAgent
  then foldl (handleBotRequest responseStatusCode) (start responseHeaders) callbacks
  else foldl (handleBrowserRequest responseStatusCode) (start responseHeaders) callbacks.

(** The callback that answers a request of this user agent. *)
Definition answers (userAgent : option jsstring) (callback : Callback) : bool :=
  match callback with
  | onAllReady => isbot userAgent
  | onShellReady => negb (isbot userAgent)
  | _ => false
  end.

(** The callbacks that settle the promise of this user agent. *)
Definition settles (userAgent : option jsstring) (callback : Callback) : bool :=
  match callback with
  | onShellError _ => true
  | _ => answers userAgent callback
  end.

Definition isError (callback : Callback) : bool :=
  match callback with
  | onError _ => true
  | _ => false
  end.

(** The error a callback reports through [onError]. *)
Definition reported (callback : Callback) : option Error :=
  match callback with
  | onError e => Some e
  | _ => None
  end.

End Render.

Arguments onAllReady {Error}.
Arguments onShellReady {Error}.
Arguments onShellError {Error} error.
Arguments onError {Error} error.
Arguments pending {Error}.
Arguments resolved {Error} response.
Arguments rejected {Error} error.
Arguments didError {Error} r.
Arguments responseHeaders {Error} r.
Arguments promise {Error} r.
Arguments console {Error} r.
Arguments handleRequest {Error} newResponse isbot userAgent responseStatusCode
  responseHeaders callbacks.
Arguments answers {Error} isbot userAgent callback.
Arguments settles {Error} isbot userAgent callback.
Arguments isError {Error} callback.
Arguments reported {Error} callback.

End EntryServer.

(** ** Sample inputs *)

Module Samples.

Definition body : Element :=
  mkElement (Some (js "BODY")) true [] [] (js "<body></body>") (Some []) None.

Definition card : Element :=
  mkElement (Some (js "DIV")) true [] [js "card"; js "wide"; js "dark"]
    (js "<div>Save</div>") (Some (js "  Save  ")) (Some body).

Definition saveButton : Element :=
  mkElement (Some (js "BUTTON")) true (js "save") [js "primary"]
    (js "<button>Save</button>") (Some (js "Save")) (Some card).

(** An SVG element: it has an [id], and it is no [HTMLElement]. *)
Definition logo : Element :=
  mkElement (Some (js "svg")) false (js "logo") []
    (js "<svg></svg>") (Some []) (Some body).

Definition href : jsstring := js "http://localhost:5173/".

(** A paragraph whose markup and text pass the truncation limits. *)
Definition longParagraph : Element :=
  mkElement (Some (js "P")) true [] [] (replicate 401 120%N)
    (Some (replicate 121 120%N)) None.

(** The playground page after the button was selected. *)
Definition saveSnapshot : App.ElementSnapshot :=
  App.createElementSnapshot saveButton href.

Definition saveCall : App.DescribeCall :=
  {| App.currentToken := 1; App.callSnapshot := saveSnapshot |}.

Definition saveSelected : App.Controller :=
  App.onElementSelect saveButton href App.initial.

(** A race: the card is selected, then the button; the user types, the
    call of the button resolves and only then the call of the card. *)
Definition cardText : jsstring := js "at div in Card (at Board.tsx)".
Definition saveText : jsstring := js "at button in SaveButton (at Toolbar.tsx)".

(** Texts whose leftmost match is not the one a reader may look for. *)
Definition nestedButton : jsstring := js "at span in Card in Button (at Card.tsx)".
Definition anonymousThenApp : jsstring := js "at div in <anonymous> in App".
Definition serverThenApp : jsstring := js "at div in server in App".
Definition serverPanel : jsstring := js "at div in ServerPanel".

Definition raceMid : App.Controller :=
  default App.initial
    (App.run App.createElementSnapshot App.initial
       [App.Select card href; App.Select saveButton href; App.Edit (js "typo")]).

Definition raceEnd : App.Controller :=
  default App.initial
    (App.run App.createElementSnapshot raceMid
       [App.Resolve 1 saveText; App.Resolve 0 cardText]).

(** A stored record and the storages used below. *)
Definition sampleInput : FeedbackService.FeedbackCreateInput :=
  {| FeedbackService.elementLabel := App.elementLabel saveSnapshot;
     FeedbackService.selector := App.selector saveSnapshot;
     FeedbackService.tagName := App.tagName saveSnapshot;
     FeedbackService.textPreview := App.textPreview saveSnapshot;
     FeedbackService.context := saveText;
     FeedbackService.pageUrl := href;
     FeedbackService.htmlPreview := App.htmlPreview saveSnapshot;
     FeedbackService.feedbackText := js "The label is cut off";
     FeedbackService.componentName := Some (js "SaveButton") |}.

Definition storedRecord : FeedbackService.FeedbackRecord :=
  {| FeedbackService.id := js "fbk_1";
     FeedbackService.status := FeedbackService.resolved;
     FeedbackService.createdAt := 1700000000000;
     FeedbackService.updatedAt := 1700000360000;
     FeedbackService.fields := sampleInput |}.

Definition storage : gmap jsstring FeedbackService.StoredText :=
  {[ FeedbackService.STORAGE_KEY := FeedbackService.JSON_stringify [storedRecord] ]}.

Definition brokenStorage : gmap jsstring FeedbackService.StoredText :=
  {[ FeedbackService.STORAGE_KEY := FeedbackService.Malformed (js "{oops") ]}.

(** The draft of the button with its context merged and a text typed, and
    the same draft with a context of white space only. *)
Definition typedDraft : App.FeedbackDraft :=
  {| App.snapshot := saveSnapshot;
     App.context := saveText;
     App.componentName := Some (js "SaveButton");
     App.feedbackText := js "  The label is cut off ";
     App.isContextPending := false |}.

Definition blankContextDraft : App.FeedbackDraft :=
  {| App.snapshot := saveSnapshot;
     App.context := js "  ";
     App.componentName := None;
     App.feedbackText := js "The label is cut off";
     App.isContextPending := false |}.

(** The button was selected and the draft discarded while its call was in
    flight; then the call resolves and the text box fires once more. *)
Definition saveDiscarded : App.Controller :=
  default App.initial
    (App.run App.createElementSnapshot App.initial
       [App.Select saveButton href; App.ResetDraft]).

Definition saveDiscardedEnd : App.Controller :=
  default App.initial
    (App.run App.createElementSnapshot saveDiscarded
       [App.Resolve 0 saveText; App.Edit (js "late")]).

(** The playground page over the sample storage: the button selected and
    nothing typed, and the typed draft. *)
Definition pageSelected : Page.State :=
  {| Page.logs := [];
     Page.controller := saveSelected;
     Page.records := [storedRecord];
     Page.statusFilter := Page.all;
     Page.isSubmitting := false;
     Page.isLoadingRecords := false;
     Page.toast := None;
     Page.updatingRecordIds := ∅;
     Page.window := Some storage |}.

Definition pageTyped : Page.State :=
  Page.setDraft (fun _ => Some typedDraft) pageSelected.

(** Upper case for texts of ASCII letters. *)
Definition asciiUpper (s : jsstring) : jsstring :=
  map (fun c => if is_lower c then (c - 32)%N else c) s.

(** What the route hands to the database client for the typed draft. *)
Definition sampleData : Route.CreateData :=
  {| Route.pageUrl := Some href;
     Route.selector := Some (App.selector saveSnapshot);
     Route.elementLabel := Some (App.elementLabel saveSnapshot);
     Route.htmlPreview := Some (App.htmlPreview saveSnapshot);
     Route.context := Some saveText;
     Route.feedbackText := Some (js "The label is cut off");
     Route.componentName := Some (js "SaveButton");
     Route.status := js "PENDING" |}.

(** A storage whose array holds a record, a number, an empty object and a
    text, and one whose array holds [null]; the text of an instant. *)
Definition mixedStorage : gmap jsstring ParsedStore.StoredText :=
  {[ FeedbackService.STORAGE_KEY :=
       ParsedStore.Serialized
         (ParsedStore.VArray
            [ ParsedStore.VObject
                [ (js "id", ParsedStore.VString (js "fbk_1"));
                  (js "status", ParsedStore.VString (js "resolved")) ];
              ParsedStore.VNumber (js "7");
              ParsedStore.VObject [];
              ParsedStore.VString (js "fbk_2") ]) ]}.

Definition nullStorage : gmap jsstring ParsedStore.StoredText :=
  {[ FeedbackService.STORAGE_KEY :=
       ParsedStore.Serialized (ParsedStore.VArray [ParsedStore.VNull]) ]}.

Definition isoNow : jsstring := js "2023-11-14T22:20:00.000Z".

(** The constructor of the Fetch standard for a body that is not null, on
    whole numbers: the status is read as an unsigned short; one outside
    200..599 is a [RangeError], and one that admits no body a
    [TypeError]. *)
Definition fetchResponse (status : Z) (headers : EntryServer.Headers)
    : option EntryServer.Response :=
  let status := (status mod 65536)%Z in
  if (200 <=? status)%Z && (status <=? 599)%Z
     && negb (bool_decide (status ∈ [101; 103; 204; 205; 304]%Z))
  then Some {| EntryServer.status := status; EntryServer.headers := headers |}
  else None.

End Samples.

(** * Properties *)

(** ** The selector builder and the element snapshot *)

Section Selector.

Opaque js.

Lemma join_snoc_nonempty (sep : jsstring) (parts : list jsstring) (last : jsstring) :
  last <> [] -> join sep (parts ++ [last]) <> [].
Proof.
  intros Hlast. induction parts as [|p parts IH]; simpl; [done|].
  destruct (parts ++ [last]) as [|q rest] eqn:Hrest.
  - by destruct parts.
  - intros Hnil. apply app_eq_nil in Hnil as [_ Hnil].
    apply app_eq_nil in Hnil as [_ Hnil]. done.
Qed.

Lemma toLowerCase_nonempty (s : jsstring) : s <> [] -> toLowerCase s <> [].
Proof. by destruct s. Qed.

Lemma playground_loop_walk (current : Element) (parts : list jsstring) :
  App.buildSelector_loop current parts
  = parts ++ selectorWalk [] (5 - length parts) current.
Proof.
  revert parts. induction current as [current IH] using Element_parent_ind.
  intros parts. destruct current as [tag html ident classes outer text parent].
  simpl in *. case_decide as Hlen.
  - destruct (5 - length parts) as [|levels] eqn:Hlevels; [lia|].
    simpl. unfold selectorPart. simpl.
    assert (5 - length (parts ++ [default [] (toLowerCase <$> tag)
              ++ concat ((fun className => js "." ++ className)
                   <$> take 2 (filter (fun c => truthy c = true) classes))]) = levels) as Hl1.
    { rewrite length_app. simpl. lia. }
    assert (5 - length (parts ++ [default [] (toLowerCase <$> tag)]) = levels) as Hl2.
    { rewrite length_app. simpl. lia. }
    destruct html; simpl.
    + destruct (truthy ident); simpl; [done|].
      set (cls := (fun className => js "." ++ className)
                   <$> take 2 (filter (fun c => truthy c = true) classes)) in *.
      assert ((if decide (0 < length cls) then concat cls else []) = concat cls) as ->.
      { case_decide; [done|]. destruct cls; [done|simpl in *; lia]. }
      destruct parent as [p|]; [|done].
      rewrite (IH p eq_refl), Hl1. by rewrite <- app_assoc.
    + destruct parent as [p|]; [|done].
      rewrite (IH p eq_refl), Hl2. by rewrite <- app_assoc.
  - replace (5 - length parts) with 0 by lia. simpl. by rewrite app_nil_r.
Qed.

Lemma route_loop_walk (current : Element) (depth : nat) (parts : list jsstring) :
  Remix.buildSelector_loop current depth parts
  = parts ++ selectorWalk (js "element") (5 - depth) current.
Proof.
  revert depth parts. induction current as [current IH] using Element_parent_ind.
  intros depth parts. destruct current as [tag html ident classes outer text parent].
  simpl in *. case_decide as Hlen.
  - destruct (5 - depth) as [|levels] eqn:Hlevels; [lia|].
    assert (5 - (depth + 1) = levels) as Hl by lia.
    simpl. unfold selectorPart. simpl.
    destruct html; simpl.
    + destruct (truthy ident); simpl; [done|].
      destruct parent as [p|]; [|done].
      rewrite (IH p eq_refl), Hl. by rewrite <- app_assoc.
    + destruct parent as [p|]; [|done].
      rewrite (IH p eq_refl), Hl. by rewrite <- app_assoc.
  - replace (5 - depth) with 0 by lia. simpl. by rewrite app_nil_r.
Qed.

Lemma selectorWalk_length (fallback : jsstring) (levels : nat) (node : Element) :
  length (selectorWalk fallback levels node) <= levels.
Proof.
  revert node. induction levels as [|levels IH]; intros node; simpl; [lia|].
  destruct (selectorPart fallback node).2; simpl; [lia|].
  destruct (parentElement node) as [p|]; simpl; [|lia].
  specialize (IH p). lia.
Qed.

Lemma selectorPart_truncate (fallback : jsstring) (n : nat) (node : Element) :
  selectorPart fallback (truncate n node) = selectorPart fallback node.
Proof. by destruct n, node. Qed.

Lemma selectorWalk_truncate (fallback : jsstring) (levels : nat) (node : Element) :
  selectorWalk fallback levels (truncate levels node)
  = selectorWalk fallback levels node.
Proof.
  revert node. induction levels as [|levels IH]; intros node; [done|].
  cbn [selectorWalk]. rewrite selectorPart_truncate.
  f_equal. destruct (selectorPart fallback node).2; [done|].
  destruct node as [tag html ident classes outer text parent].
  destruct levels as [|levels]; simpl.
  - by destruct parent.
  - destruct parent as [p|]; [|done]. apply (IH p).
Qed.

Lemma playground_selector_walk (element : Element) :
  App.buildSelector element = join (js " > ") (reverse (selectorWalk [] 5 element)).
Proof. unfold App.buildSelector. by rewrite playground_loop_walk. Qed.

Lemma route_selector_walk (element : Element) :
  Remix.buildSelector element
  = join (js " > ") (reverse (selectorWalk (js "element") 5 element)).
Proof. unfold Remix.buildSelector. by rewrite route_loop_walk. Qed.

Lemma selectorWalk_nonempty (fallback : jsstring) (levels : nat) (node : Element)
    (tag : jsstring) :
  Dom.tagName node = Some tag -> tag <> [] ->
  join (js " > ") (reverse (selectorWalk fallback (S levels) node)) <> [].
Proof.
  intros Htag Hne. cbn [selectorWalk]. rewrite reverse_cons.
  apply join_snoc_nonempty. unfold selectorPart. rewrite Htag. simpl.
  pose proof (toLowerCase_nonempty tag Hne) as Hlow.
  destruct (isHTMLElement node); [destruct (truthy (id node))|]; simpl;
    try done; intros Hnil; by apply app_eq_nil in Hnil as [? _].
Qed.

Lemma ancestors_unfold (e : Element) :
  ancestors e = e :: match parentElement e with
                     | Some p => ancestors p
                     | None => []
                     end.
Proof. by destruct e. Qed.

Lemma selectorPart_stops (fallback : jsstring) (node : Element) :
  isHTMLElement node = true -> id node <> [] ->
  selectorPart fallback node
  = (default fallback (toLowerCase <$> Dom.tagName node) ++ js "#" ++ id node, true).
Proof.
  intros Hhtml Hid. unfold selectorPart. rewrite Hhtml.
  by destruct (id node).
Qed.

Lemma selectorPart_goes_on (fallback : jsstring) (node : Element) :
  (isHTMLElement node = true -> id node = []) ->
  (selectorPart fallback node).2 = false.
Proof.
  intros Hid. unfold selectorPart.
  destruct (isHTMLElement node); [|done]. by rewrite Hid.
Qed.

(** The walk up to the first node it stops at. *)
Lemma selectorWalk_stop (fallback : jsstring) (k levels : nat) (element node : Element) :
  ancestors element !! k = Some node ->
  k < levels ->
  isHTMLElement node = true -> id node <> [] ->
  (forall j m, j < k -> ancestors element !! j = Some m ->
               isHTMLElement m = true -> id m = []) ->
  selectorWalk fallback levels element
  = ((fun m => (selectorPart fallback m).1) <$> take k (ancestors element))
      ++ [default fallback (toLowerCase <$> Dom.tagName node) ++ js "#" ++ id node].
Proof.
  revert levels element.
  induction k as [|k IH]; intros levels element Hnode Hlt Hhtml Hid Hbefore;
    (destruct levels as [|levels]; [lia|]); rewrite ancestors_unfold in *;
    cbn [selectorWalk].
  - simpl in Hnode. simplify_eq. by rewrite selectorPart_stops.
  - cbn [take fmap list_fmap app]. f_equal.
    rewrite selectorPart_goes_on by (apply (Hbefore 0); [lia|done]).
    simpl in Hnode.
    destruct (parentElement element) as [p|]; [|by rewrite lookup_nil in Hnode].
    apply IH; [done|lia|done|done|].
    intros j m Hj Hm. apply (Hbefore (S j)); [lia|done].
Qed.
(** C9, amended. Both selector builders read at most five levels, the
    element included: they collect at most five parts and return for an
    element what they return for its chain cut after five levels. For an
    element with a tag name the selector is not empty. And when the walk
    stands at a node that is an [HTMLElement] with a non-empty [id], it
    emits the tag, a hash sign and the id, and ends there: if that node is
    the first such node of the chain and lies within the five levels, the
    parts are those of the nodes below it followed by its tag and id, and
    nothing of its ancestors. *)
Theorem selector_walk_bounded (element : Element) :
  length (App.buildSelector_loop element []) <= 5
  /\ App.buildSelector (truncate 5 element) = App.buildSelector element
  /\ length (Remix.buildSelector_loop element 0 []) <= 5
  /\ Remix.buildSelector (truncate 5 element) = Remix.buildSelector element
  /\ (forall tag, Dom.tagName element = Some tag -> tag <> [] ->
       App.buildSelector element <> [] /\ Remix.buildSelector element <> [])
  /\ (forall (current : Element) (parts : list jsstring),
        length parts < 5 -> isHTMLElement current = true -> id current <> [] ->
        App.buildSelector_loop current parts
        = parts ++ [default [] (toLowerCase <$> Dom.tagName current)
                      ++ js "#" ++ id current])
  /\ (forall (current : Element) (depth : nat) (parts : list jsstring),
        depth < 5 -> isHTMLElement current = true -> id current <> [] ->
        Remix.buildSelector_loop current depth parts
        = parts ++ [default (js "element") (toLowerCase <$> Dom.tagName current)
                      ++ js "#" ++ id current])
  /\ (forall (k : nat) (node : Element),
        ancestors element !! k = Some node -> k < 5 ->
        isHTMLElement node = true -> id node <> [] ->
        (forall j m, j < k -> ancestors element !! j = Some m ->
                     isHTMLElement m = true -> id m = []) ->
        App.buildSelector_loop element []
        = ((fun m => (selectorPart [] m).1) <$> take k (ancestors element))
            ++ [default [] (toLowerCase <$> Dom.tagName node) ++ js "#" ++ id node]
        /\ Remix.buildSelector_loop element 0 []
           = ((fun m => (selectorPart (js "element") m).1) <$> take k (ancestors element))
               ++ [default (js "element") (toLowerCase <$> Dom.tagName node)
                     ++ js "#" ++ id node]).
Proof.
  split; [|split; [|split; [|split; [|split; [|split; [|split]]]]]].
  - rewrite playground_loop_walk. apply (selectorWalk_length [] 5).
  - by rewrite !playground_selector_walk, selectorWalk_truncate.
  - rewrite route_loop_walk. apply (selectorWalk_length (js "element") 5).
  - by rewrite !route_selector_walk, selectorWalk_truncate.
  - intros tag Htag Hne. split.
    + rewrite playground_selector_walk. eauto using selectorWalk_nonempty.
    + rewrite route_selector_walk. eauto using selectorWalk_nonempty.
  - intros current parts Hlen Hhtml Hid.
    destruct current as [tag html ident classes outer text parent]; simpl in *.
    case_decide; [|lia]. rewrite Hhtml. by destruct ident.
  - intros current depth parts Hlen Hhtml Hid.
    destruct current as [tag html ident classes outer text parent]; simpl in *.
    case_decide; [|lia]. rewrite Hhtml. by destruct ident.
  - intros k node Hnode Hk Hhtml Hid Hbefore.
    rewrite playground_loop_walk, route_loop_walk.
    split; by apply (selectorWalk_stop _ k 5).
Qed.

(** C9 as stated fails on an element that has an [id] and is no
    [HTMLElement]: the builders emit its bare tag and walk on. *)
Lemma selector_id_counterexample :
  id Samples.logo <> []
  /\ App.buildSelector_loop Samples.logo [] = [js "svg"; js "body"]
  /\ App.buildSelector Samples.logo = js "body > svg"
  /\ Remix.buildSelector Samples.logo = js "body > svg"
  /\ ~ (id Samples.logo <> [] ->
        App.buildSelector_loop Samples.logo [] = [js "svg#logo"]).
Proof.
  assert (id Samples.logo <> []) as Hid by (vm_compute; discriminate).
  repeat split; try (vm_compute; reflexivity); [exact Hid|].
  intros H. specialize (H Hid). vm_compute in H. discriminate.
Qed.

Lemma length_ellipsis : length (js "...") = 3.
Proof. vm_compute. reflexivity. Qed.

(** C8, amended. A text preview has at most 123 code units: 120 of the
    flattened text and the three of the ellipsis. The HTML preview of an
    [HTMLElement] with markup has at most 403; for any other element it is
    the synthetic tag built from the tag name. The route builds the same
    two previews. *)
Theorem preview_lengths (element : Element) (href : jsstring) :
  length (App.textPreview (App.createElementSnapshot element href)) <= 123
  /\ (isHTMLElement element = true -> outerHTML element <> [] ->
      length (App.htmlPreview (App.createElementSnapshot element href)) <= 403)
  /\ (isHTMLElement element = false \/ outerHTML element = [] ->
      App.htmlPreview (App.createElementSnapshot element href)
      = js "<" ++ App.tagName (App.createElementSnapshot element href) ++ js " />")
  /\ App.textPreview (Remix.createElementSnapshot element href)
     = App.textPreview (App.createElementSnapshot element href)
  /\ App.htmlPreview (Remix.createElementSnapshot element href)
     = App.htmlPreview (App.createElementSnapshot element href).
Proof.
  unfold App.createElementSnapshot, Remix.createElementSnapshot, slice0.
  cbn [App.textPreview App.htmlPreview App.tagName].
  repeat split.
  - case_decide; [|lia]. rewrite length_app, length_take, length_ellipsis. lia.
  - intros Hhtml Hne. rewrite Hhtml.
    destruct (outerHTML element) as [|c rest] eqn:Houter; [done|].
    cbn [truthy andb]. case_decide; [|lia].
    rewrite length_app, length_take, length_ellipsis. lia.
  - intros [Hhtml|Houter].
    + by rewrite Hhtml.
    + rewrite Houter. by destruct (isHTMLElement element).
Qed.

(** C8 as stated fails on a paragraph with 401 units of markup and 121 of
    text: its previews have 403 and 123 units. *)
Lemma preview_lengths_counterexample :
  length (App.textPreview (App.createElementSnapshot Samples.longParagraph Samples.href)) = 123
  /\ length (App.htmlPreview (App.createElementSnapshot Samples.longParagraph Samples.href)) = 403
  /\ ~ (length (App.textPreview (App.createElementSnapshot Samples.longParagraph Samples.href)) <= 120
        /\ length (App.htmlPreview (App.createElementSnapshot Samples.longParagraph Samples.href)) <= 400).
Proof.
  assert (length (App.textPreview (App.createElementSnapshot Samples.longParagraph Samples.href)) = 123) as Ht
    by (vm_compute; reflexivity).
  assert (length (App.htmlPreview (App.createElementSnapshot Samples.longParagraph Samples.href)) = 403) as Hh
    by (vm_compute; reflexivity).
  split; [exact Ht|]. split; [exact Hh|]. rewrite Ht, Hh. lia.
Qed.

Transparent js.

End Selector.

(** ** The component-name extractor *)

Section Extractor.

Import App.

Lemma span_app_stop (p : N -> bool) (s : jsstring) (c : N) (rest : jsstring) :
  p c = false ->
  span p (s ++ c :: rest)
  = match (span p s).2 with
    | [] => ((span p s).1, c :: rest)
    | _ :: _ => ((span p s).1, (span p s).2 ++ c :: rest)
    end.
Proof.
  intros Hc. induction s as [|d s IH]; simpl.
  - by rewrite Hc.
  - destruct (p d); [|done]. rewrite IH.
    destruct (span p s) as [run tail]; simpl. by destruct tail.
Qed.

Lemma match_here_app_none (s rest : jsstring) :
  s <> [] -> match_here s = None -> match_here (s ++ 105%N :: rest) = None.
Proof.
  intros Hne Hnone. destruct s as [|c1 [|c2 s]]; [done| |].
  - simpl. destruct (c1 =? 105)%N; done.
  - simpl in *. destruct ((c1 =? 105) && (c2 =? 110))%N; [|done].
    rewrite span_app_stop by done.
    destruct (span is_space s) as [run tail]; simpl in *.
    destruct tail as [|t tail]; simpl.
    + by destruct run.
    + destruct run; [done|]. by destruct (is_upper t).
Qed.

Lemma wordBefore_cons (before : bool) (c : N) (s : jsstring) :
  wordBefore before (c :: s) = wordBefore (is_word c) s.
Proof.
  unfold wordBefore. destruct s as [|d s]; [done|].
  change (last (c :: d :: s)) with (last (d :: s)).
  destruct (last (d :: s)) eqn:Hlast; [done|]. by apply last_None in Hlast.
Qed.

Lemma match_from_app (pre rest : jsstring) (before : bool) :
  match_from before pre = None ->
  match_from before (pre ++ 105%N :: rest)
  = match_from (wordBefore before pre) (105%N :: rest).
Proof.
  revert before. induction pre as [|c pre IH]; intros before Hnone; [done|].
  rewrite wordBefore_cons. cbn [match_from app] in *.
  destruct before.
  - by apply IH.
  - destruct (match_here (c :: pre)) eqn:Hhere; [done|].
    change (c :: pre ++ 105%N :: rest) with ((c :: pre) ++ 105%N :: rest).
    rewrite match_here_app_none by done. by apply IH.
Qed.

Lemma match_from_skip (s : jsstring) :
  match_from false s = None -> match_from true s = None.
Proof.
  destruct s as [|c s]; [done|]. cbn [match_from].
  by destruct (match_here (c :: s)).
Qed.

Lemma span_name_stop (post : jsstring) :
  startsWithNameUnit post = false -> (span is_name_unit post).1 = [].
Proof. destruct post as [|c post]; [done|]. simpl. by intros ->. Qed.

Ltac literal text :=
  let units := eval vm_compute in (js text) in
  change (js text) with units.

(** C7, amended. What the extractor returns is decided by the leftmost
    place where the pattern matches. If the text [pre] before an
    occurrence holds no match, then: [in Button], at a word boundary and
    followed by no identifier unit, yields [Button]; [in <anonymous>] and
    [in server] are no matches, so that the result is absent when the rest
    holds no match either; and [in Server], at a word boundary and
    followed by no identifier unit, is the match and is rejected, whatever
    follows. *)
Theorem extract_first_match (pre post : jsstring) :
  regex_match pre = None ->
  (endsWithWord pre = false -> startsWithNameUnit post = false ->
   extractComponentName (pre ++ js "in Button" ++ post) = Some (js "Button"))
  /\ (regex_match post = None ->
      extractComponentName (pre ++ js "in <anonymous>" ++ post) = None)
  /\ (regex_match post = None ->
      extractComponentName (pre ++ js "in server" ++ post) = None)
  /\ (endsWithWord pre = false -> startsWithNameUnit post = false ->
      extractComponentName (pre ++ js "in Server" ++ post) = None).
Proof.
  intros Hpre. unfold extractComponentName, regex_match, endsWithWord in *.
  repeat split.
  - intros Hend Hpost. literal "in Button". cbn [app].
    rewrite match_from_app, Hend by done.
    pose proof (span_name_stop post Hpost) as Hrun.
    cbn. destruct (span is_name_unit post) as [run tail].
    simpl in Hrun. subst run. vm_compute. reflexivity.
  - intros Hpost. literal "in <anonymous>". cbn [app].
    rewrite match_from_app by done.
    destruct (wordBefore false pre); cbn; by rewrite Hpost.
  - intros Hpost. literal "in server". cbn [app].
    rewrite match_from_app by done. apply match_from_skip in Hpost.
    destruct (wordBefore false pre); cbn; by rewrite Hpost.
  - intros Hend Hpost. literal "in Server". cbn [app].
    rewrite match_from_app, Hend by done.
    pose proof (span_name_stop post Hpost) as Hrun.
    cbn. destruct (span is_name_unit post) as [run tail].
    simpl in Hrun. subst run. vm_compute. reflexivity.
Qed.

(** C7 as stated fails on texts that hold the quoted words behind, or
    glued to, another match. *)
Lemma extract_counterexample :
  Samples.nestedButton = js "at span in Card" ++ js " in Button " ++ js "(at Card.tsx)"
  /\ extractComponentName Samples.nestedButton = Some (js "Card")
  /\ Samples.anonymousThenApp = js "at div " ++ js "in <anonymous>" ++ js " in App"
  /\ extractComponentName Samples.anonymousThenApp = Some (js "App")
  /\ Samples.serverThenApp = js "at div " ++ js "in server" ++ js " in App"
  /\ extractComponentName Samples.serverThenApp = Some (js "App")
  /\ Samples.serverPanel = js "at div " ++ js "in Server" ++ js "Panel"
  /\ extractComponentName Samples.serverPanel = Some (js "ServerPanel").
Proof. repeat split; vm_compute; reflexivity. Qed.

(** The four occurrences between a prefix and a rest without matches. *)
Lemma extract_first_match_witness :
  regex_match (js "at span ") = None
  /\ extractComponentName (js "at span " ++ js "in Button" ++ js " (at Toolbar.tsx)")
     = Some (js "Button")
  /\ extractComponentName (js "at span " ++ js "in <anonymous>" ++ js " (at Toolbar.tsx)")
     = None
  /\ extractComponentName (js "at span " ++ js "in server" ++ js " (at Toolbar.tsx)")
     = None
  /\ extractComponentName (js "at span " ++ js "in Server" ++ js " (at Toolbar.tsx)")
     = None.
Proof.
  split; [vm_compute; reflexivity|].
  destruct (extract_first_match (js "at span ") (js " (at Toolbar.tsx)")
              ltac:(vm_compute; reflexivity)) as (Hbutton & Hanonymous & Hserver & Hcapital).
  split; [|split; [|split]];
    [apply Hbutton|apply Hanonymous|apply Hserver|apply Hcapital];
    vm_compute; reflexivity.
Defined.

End Extractor.

(** ** The draft controller *)

Section DraftController.

Import App.

Variable build : Element -> jsstring -> ElementSnapshot.

Lemma increment_ge (n : Z) : (n <= increment n)%Z.
Proof. unfold increment. case_decide; lia. Qed.

Lemma increment_below (n : Z) : (n < 2 ^ 53)%Z -> increment n = (n + 1)%Z.
Proof. intros H. unfold increment. by rewrite decide_True. Qed.

Lemma increment_le_succ (n : Z) : (increment n <= n + 1)%Z.
Proof. unfold increment. case_decide; lia. Qed.

Lemma run_app (st : Controller) (events1 events2 : list Event) :
  run build st (events1 ++ events2) = run build st events1 ≫= fun st' => run build st' events2.
Proof.
  revert st. induction events1 as [|ev events1 IH]; intros st; simpl; [done|].
  destruct (step build st ev) as [st'|]; simpl; [apply IH|done].
Qed.

(** Removing the [i]-th element of an append removes it from the part it
    lies in. *)
Lemma delete_app_cases {A : Type} (l1 l2 : list A) (i : nat) (x : A) :
  (l1 ++ l2) !! i = Some x ->
  (l1 !! i = Some x /\ delete i (l1 ++ l2) = delete i l1 ++ l2)
  \/ (length l1 <= i /\ l2 !! (i - length l1) = Some x
      /\ delete i (l1 ++ l2) = l1 ++ delete (i - length l1) l2).
Proof.
  revert i. induction l1 as [|y l1 IH]; intros i Hi; simpl in *.
  - right. rewrite Nat.sub_0_r. split; [lia|done].
  - destruct i as [|i]; simpl in *.
    + left. done.
    + destruct (IH i Hi) as [[H1 H2]|(H1 & H2 & H3)].
      * left. by rewrite H2.
      * right. split; [lia|]. by rewrite H3.
Qed.

(** A settling call whose token is not the current one changes nothing but
    the list of calls in flight. *)
Lemma superseded_call_discarded (st : Controller) (ev : Event) (i : nat)
    (call : DescribeCall) :
  settledCall ev = Some i ->
  inflight st !! i = Some call ->
  currentToken call <> contextTokenRef st ->
  step build st ev = Some (settle i st).
Proof.
  intros Hev Hcall Hne.
  destruct ev; simpl in Hev; simplify_eq; simpl; rewrite Hcall; simpl.
  - unfold onResolved. rewrite decide_True; [done|]. simpl. congruence.
  - unfold onRejected. rewrite decide_True; [done|]. simpl. congruence.
Qed.

Lemma step_tokensBounded (st st' : Controller) (ev : Event) :
  tokensBounded st -> step build st ev = Some st' ->
  tokensBounded st' /\ (contextTokenRef st <= contextTokenRef st')%Z
  /\ (contextTokenRef st' <= contextTokenRef st + Z.of_nat (selections [ev]))%Z.
Proof.
  unfold tokensBounded. intros Hb Hstep.
  destruct ev; simpl in Hstep; simplify_option_eq.
  - simpl. pose proof (increment_ge (contextTokenRef st)).
    pose proof (increment_le_succ (contextTokenRef st)).
    split; [|unfold selections; simpl; lia].
    apply Forall_app. split.
    + eapply Forall_impl; [exact Hb|]. simpl. intros; lia.
    + repeat constructor. simpl. lia.
  - unfold onResolved. case_decide; simpl; (split; [by apply Forall_delete|unfold selections; simpl; lia]).
  - unfold onRejected. case_decide; simpl; (split; [by apply Forall_delete|unfold selections; simpl; lia]).
  - simpl. unfold selections; simpl. split; [done|lia].
  - simpl. unfold selections; simpl. split; [done|lia].
  - simpl. unfold selections; simpl. split; [done|lia].
Qed.

Lemma selections_cons (ev : Event) (events : list Event) :
  selections (ev :: events) = selections [ev] + selections events.
Proof.
  unfold selections. rewrite !filter_cons, filter_nil.
  destruct (decide (isSelect ev = true)); reflexivity.
Qed.

Lemma run_tokensBounded (events : list Event) (st st' : Controller) :
  tokensBounded st -> run build st events = Some st' ->
  tokensBounded st'
  /\ (contextTokenRef st' <= contextTokenRef st + Z.of_nat (selections events))%Z.
Proof.
  revert st. induction events as [|ev events IH]; intros st Hb Hrun; simpl in Hrun.
  - simplify_eq. split; [done|]. unfold selections; simpl; lia.
  - destruct (step build st ev) as [st1|] eqn:Hstep; simpl in Hrun; [|done].
    destruct (step_tokensBounded _ _ _ Hb Hstep) as (Hb1 & _ & Hle1).
    destruct (IH _ Hb1 Hrun) as [Hb' Hle']. split; [done|].
    rewrite selections_cons. lia.
Qed.

Lemma select_awaiting (st : Controller) (element : Element) (href : jsstring) :
  tokensBounded st -> (contextTokenRef st < 2 ^ 53)%Z ->
  awaiting (contextTokenRef st + 1) (build element href)
    (selectWith build element href st).
Proof.
  intros Hb Hlt. unfold awaiting, selectWith; simpl.
  rewrite increment_below by done.
  split; [done|]. split; [eexists; split; [reflexivity|done]|].
  eexists _, _. split; [reflexivity|]. split; [|by right].
  eapply Forall_impl; [exact Hb|]. unfold superseded. simpl. intros; lia.
Qed.

(** What settling the [i]-th call does to the calls in flight of a state
    that awaits the latest call. *)
Lemma awaiting_settle (token : Z) (snap : ElementSnapshot) (st : Controller)
    (i : nat) (call : DescribeCall) :
  awaiting token snap st -> inflight st !! i = Some call ->
  (superseded token call /\ awaiting token snap (settle i st))
  \/ (call = {| currentToken := token; callSnapshot := snap |}
      /\ Forall (superseded token) (inflight (settle i st))).
Proof.
  intros (Htok & Hd & older & latest & Hin & Hold & Hlatest) Hcall.
  rewrite Hin in Hcall.
  destruct (delete_app_cases _ _ _ _ Hcall) as [[Hl Hdel]|(Hge & Hl & Hdel)].
  - left. split.
    + eapply Forall_lookup_1; eauto.
    + split; [done|]. split; [done|].
      exists (delete i older), latest. simpl. rewrite Hin, Hdel.
      split; [done|]. split; [by apply Forall_delete|done].
  - right. destruct Hlatest as [->| ->]; [by rewrite lookup_nil in Hl|].
    destruct (i - length older) as [|k] eqn:Hk; simpl in Hl; [|by rewrite lookup_nil in Hl].
    simplify_eq. split; [done|].
    simpl. rewrite Hin, Hdel, ?Hk. simpl. by rewrite app_nil_r.
Qed.

Lemma step_awaiting (token : Z) (snap : ElementSnapshot) (st st' : Controller)
    (ev : Event) :
  keepsSelection ev = true -> awaiting token snap st ->
  step build st ev = Some st' -> awaiting token snap st'.
Proof.
  intros Hkeep Haw Hstep.
  destruct ev; simpl in Hkeep; try done; simpl in Hstep.
  - destruct (inflight st !! i) as [call|] eqn:Hcall; simpl in Hstep; [|done].
    simplify_eq.
    destruct (awaiting_settle _ _ _ _ _ Haw Hcall) as [[Hsup Haw']|[-> Hall]].
    + unfold onResolved. rewrite decide_True; [done|].
      simpl. destruct Haw as [-> _]. unfold superseded in Hsup. lia.
    + destruct Haw as (Htok & (d & Hd & Hsnap) & _).
      unfold onResolved. simpl. rewrite decide_False by (simpl; congruence).
      unfold setDraft, mergeContext. simpl. rewrite Hd.
      rewrite decide_False by (intros Hne; apply Hne; by rewrite Hsnap).
      split; [done|]. split; [eexists; split; [reflexivity|done]|].
      exists (inflight (settle i st)), []. simpl. rewrite app_nil_r.
      split; [done|]. split; [done|by left].
  - destruct (inflight st !! i) as [call|] eqn:Hcall; simpl in Hstep; [|done].
    simplify_eq.
    destruct (awaiting_settle _ _ _ _ _ Haw Hcall) as [[Hsup Haw']|[-> Hall]].
    + unfold onRejected. rewrite decide_True; [done|].
      simpl. destruct Haw as [-> _]. unfold superseded in Hsup. lia.
    + destruct Haw as (Htok & (d & Hd & Hsnap) & _).
      unfold onRejected. simpl. rewrite decide_False by (simpl; congruence).
      unfold setDraft, clearPending. simpl. rewrite Hd.
      rewrite decide_False by (intros Hne; apply Hne; by rewrite Hsnap).
      split; [done|]. split; [eexists; split; [reflexivity|done]|].
      exists (inflight (settle i st)), []. simpl. rewrite app_nil_r.
      split; [done|]. split; [done|by left].
  - simplify_eq. destruct Haw as (Htok & (d & Hd & Hsnap) & Hin).
    split; [done|]. split; [|done]. simpl. rewrite Hd. simpl. eauto.
  - simplify_eq. destruct Haw as (Htok & (d & Hd & Hsnap) & Hin).
    split; [done|]. split; [|done]. simpl. rewrite Hd. simpl. eauto.
Qed.

Lemma run_awaiting (token : Z) (snap : ElementSnapshot) (events : list Event)
    (st st' : Controller) :
  forallb keepsSelection events = true -> awaiting token snap st ->
  run build st events = Some st' -> awaiting token snap st'.
Proof.
  revert st. induction events as [|ev events IH]; intros st Hkeep Haw Hrun;
    simpl in *; [by simplify_eq|].
  apply andb_true_iff in Hkeep as [Hev Hkeep].
  destruct (step build st ev) as [st1|] eqn:Hstep; simpl in Hrun; [|done].
  eauto using step_awaiting.
Qed.

Lemma resolve_latest (token : Z) (snap : ElementSnapshot) (st st' : Controller)
    (i : nat) (call : DescribeCall) (contextText : jsstring) :
  awaiting token snap st -> inflight st !! i = Some call ->
  currentToken call = contextTokenRef st ->
  step build st (Resolve i contextText) = Some st' ->
  resolvedWith token snap contextText st'.
Proof.
  intros Haw Hcall Hcur Hstep. simpl in Hstep. rewrite Hcall in Hstep.
  simpl in Hstep. simplify_eq.
  destruct (awaiting_settle _ _ _ _ _ Haw Hcall) as [[Hsup Haw']|[-> Hall]].
  - destruct Haw as [Htok _]. unfold superseded in Hsup. lia.
  - destruct Haw as (Htok & (d & Hd & Hsnap) & _).
    unfold onResolved. simpl. rewrite decide_False by (simpl; congruence).
    unfold setDraft, mergeContext. simpl. rewrite Hd.
    rewrite decide_False by (intros Hne; apply Hne; by rewrite Hsnap).
    split; [done|]. split; [|done].
    eexists. split; [reflexivity|]. simpl. done.
Qed.

Lemma step_resolvedWith (token : Z) (snap : ElementSnapshot)
    (contextText : jsstring) (st st' : Controller) (ev : Event) :
  keepsSelection ev = true -> resolvedWith token snap contextText st ->
  step build st ev = Some st' -> resolvedWith token snap contextText st'.
Proof.
  intros Hkeep (Htok & (d & Hd & Hfields) & Hall) Hstep.
  destruct ev; simpl in Hkeep; try done.
  - simpl in Hstep.
    destruct (inflight st !! i) as [call|] eqn:Hcall; simpl in Hstep; [|done].
    simplify_eq. unfold onResolved. rewrite decide_True.
    + split; [done|]. split; [eauto|]. simpl. by apply Forall_delete.
    + simpl. pose proof (Forall_lookup_1 _ _ _ _ Hall Hcall) as Hsup.
      unfold superseded in Hsup. lia.
  - simpl in Hstep.
    destruct (inflight st !! i) as [call|] eqn:Hcall; simpl in Hstep; [|done].
    simplify_eq. unfold onRejected. rewrite decide_True.
    + split; [done|]. split; [eauto|]. simpl. by apply Forall_delete.
    + simpl. pose proof (Forall_lookup_1 _ _ _ _ Hall Hcall) as Hsup.
      unfold superseded in Hsup. lia.
  - simpl in Hstep. simplify_eq. split; [done|]. split; [|done].
    simpl. rewrite Hd. simpl. eexists. split; [reflexivity|]. done.
  - simpl in Hstep. simplify_eq. split; [done|]. split; [|done].
    simpl. rewrite Hd. simpl. eexists. split; [reflexivity|]. done.
Qed.

Lemma run_resolvedWith (token : Z) (snap : ElementSnapshot)
    (contextText : jsstring) (events : list Event) (st st' : Controller) :
  forallb keepsSelection events = true -> resolvedWith token snap contextText st ->
  run build st events = Some st' -> resolvedWith token snap contextText st'.
Proof.
  revert st. induction events as [|ev events IH]; intros st Hkeep Haw Hrun;
    simpl in *; [by simplify_eq|].
  apply andb_true_iff in Hkeep as [Hev Hkeep].
  destruct (step build st ev) as [st1|] eqn:Hstep; simpl in Hrun; [|done].
  eauto using step_resolvedWith.
Qed.

(** C2. On every selection the new draft keeps the feedback text of the
    previous draft when there is one and its selector is the selector of
    the new snapshot, and starts from the empty text otherwise. *)
Theorem select_feedbackText (element : Element) (href : jsstring) (st : Controller) :
  exists d,
    draft (selectWith build element href st) = Some d
    /\ snapshot d = build element href
    /\ (forall previous,
          draft st = Some previous ->
          selector (build element href) = selector (snapshot previous) ->
          feedbackText d = feedbackText previous)
    /\ (forall previous,
          draft st = Some previous ->
          selector (build element href) <> selector (snapshot previous) ->
          feedbackText d = [])
    /\ (draft st = None -> feedbackText d = []).
Proof.
  unfold selectWith, installDraft; simpl.
  eexists; split; [reflexivity|]; simpl.
  split; [reflexivity|].
  destruct (draft st) as [p|]; repeat split; intros; simplify_eq;
    try case_decide; congruence.
Qed.

(** C5. When a describe call rejects while its token is still the current
    one and the draft still carries the selector of its snapshot, the
    update clears [isContextPending] and nothing else: the other draft
    fields, the token and the calls in flight stay as they were. *)
Theorem rejected_clears_only_pending (call : DescribeCall) (st : Controller)
    (d : FeedbackDraft) :
  contextTokenRef st = currentToken call ->
  draft st = Some d ->
  selector (snapshot d) = selector (callSnapshot call) ->
  onRejected call st =
    {| contextTokenRef := contextTokenRef st;
       draft := Some {| snapshot := snapshot d;
                        context := context d;
                        componentName := componentName d;
                        feedbackText := feedbackText d;
                        isContextPending := false |};
       inflight := inflight st |}.
Proof.
  intros Htoken Hdraft Hselector.
  unfold onRejected, setDraft, clearPending.
  rewrite decide_False by congruence.
  rewrite Hdraft. rewrite decide_False by congruence.
  reflexivity.
Qed.

(** C1. A call that settles when its token is no longer the current one is
    dropped: the step removes it from the calls in flight and leaves the
    token and the draft as they are. And in every possible run from the
    initial state, whatever happened before the most recent selection and
    in whatever order the calls settle after it, once the call of that
    selection has resolved the draft shows its snapshot, its text and the
    component name extracted from that text. *)
Theorem latest_selection_wins :
  (forall (st : Controller) (ev : Event) (i : nat) (call : DescribeCall),
     settledCall ev = Some i ->
     inflight st !! i = Some call ->
     currentToken call <> contextTokenRef st ->
     step build st ev = Some (settle i st))
  /\ (forall (pre post1 post2 : list Event) (element : Element) (href : jsstring)
            (i : nat) (call : DescribeCall) (contextText : jsstring)
            (s1 s2 : Controller),
        (Z.of_nat (selections pre) < 2 ^ 53)%Z ->
        forallb keepsSelection (post1 ++ post2) = true ->
        run build initial (pre ++ Select element href :: post1) = Some s1 ->
        inflight s1 !! i = Some call ->
        currentToken call = contextTokenRef s1 ->
        run build s1 (Resolve i contextText :: post2) = Some s2 ->
        exists d,
          draft s2 = Some d
          /\ snapshot d = build element href
          /\ context d = contextText
          /\ componentName d = extractComponentName contextText
          /\ isContextPending d = false).
Proof.
  split; [exact superseded_call_discarded|].
  intros pre post1 post2 element href i call contextText s1 s2
    Hcount Hkeep Hrun1 Hcall Hcur Hrun2.
  rewrite forallb_app in Hkeep. apply andb_true_iff in Hkeep as [Hkeep1 Hkeep2].
  rewrite run_app in Hrun1.
  destruct (run build initial pre) as [s0|] eqn:Hpre; simpl in Hrun1; [|done].
  assert (tokensBounded initial) as Hinit by constructor.
  destruct (run_tokensBounded _ _ _ Hinit Hpre) as [Hb0 Hle0]. simpl in Hle0.
  pose proof (select_awaiting s0 element href Hb0 ltac:(lia)) as Haw.
  eapply run_awaiting in Haw; [|exact Hkeep1|exact Hrun1].
  change (step build s1 (Resolve i contextText) ≫= (fun st' => run build st' post2)
          = Some s2) in Hrun2.
  destruct (step build s1 (Resolve i contextText)) as [s1'|] eqn:Hstep;
    simpl in Hrun2; [|done].
  pose proof (resolve_latest _ _ _ _ _ _ _ Haw Hcall Hcur Hstep) as Hres.
  eapply run_resolvedWith in Hres; [|exact Hkeep2|exact Hrun2].
  destruct Hres as (_ & (d & Hd & Hsnap & Hctx & Hname & Hpend) & _).
  exists d. done.
Qed.

End DraftController.

(** The race of the samples: the card's call resolves last and the draft
    stays with the text of the button. *)
Lemma latest_selection_wins_witness :
  (Z.of_nat (App.selections [App.Select Samples.card Samples.href]) < 2 ^ 53)%Z
  /\ App.run App.createElementSnapshot App.initial
       ([App.Select Samples.card Samples.href]
          ++ App.Select Samples.saveButton Samples.href :: [App.Edit (js "typo")])
     = Some Samples.raceMid
  /\ App.inflight Samples.raceMid !! 1
     = Some {| App.currentToken := 2; App.callSnapshot := Samples.saveSnapshot |}
  /\ App.run App.createElementSnapshot Samples.raceMid
       (App.Resolve 1 Samples.saveText :: [App.Resolve 0 Samples.cardText])
     = Some Samples.raceEnd
  /\ exists d,
       App.draft Samples.raceEnd = Some d
       /\ App.snapshot d = Samples.saveSnapshot
       /\ App.context d = Samples.saveText
       /\ App.componentName d = Some (js "SaveButton")
       /\ App.isContextPending d = false.
Proof.
  split; [vm_compute; reflexivity|].
  split; [vm_compute; reflexivity|].
  split; [vm_compute; reflexivity|].
  split; [vm_compute; reflexivity|].
  exact (proj2 (latest_selection_wins App.createElementSnapshot)
           [App.Select Samples.card Samples.href] [App.Edit (js "typo")]
           [App.Resolve 0 Samples.cardText] Samples.saveButton Samples.href 1
           {| App.currentToken := 2; App.callSnapshot := Samples.saveSnapshot |}
           Samples.saveText Samples.raceMid Samples.raceEnd
           ltac:(vm_compute; reflexivity) ltac:(reflexivity)
           ltac:(vm_compute; reflexivity) ltac:(vm_compute; reflexivity)
           ltac:(vm_compute; reflexivity) ltac:(vm_compute; reflexivity)).
Defined.

(** The call of the selected button rejects. *)
Lemma rejected_clears_only_pending_witness :
  App.contextTokenRef Samples.saveSelected = App.currentToken Samples.saveCall
  /\ App.onRejected Samples.saveCall Samples.saveSelected =
       {| App.contextTokenRef := 1;
          App.draft := Some {| App.snapshot := Samples.saveSnapshot;
                               App.context := App.htmlPreview Samples.saveSnapshot;
                               App.componentName := None;
                               App.feedbackText := [];
                               App.isContextPending := false |};
          App.inflight := [Samples.saveCall] |}.
Proof.
  split; [reflexivity|].
  exact (rejected_clears_only_pending Samples.saveCall Samples.saveSelected
           {| App.snapshot := Samples.saveSnapshot;
              App.context := App.htmlPreview Samples.saveSnapshot;
              App.componentName := None;
              App.feedbackText := [];
              App.isContextPending := true |}
           eq_refl eq_refl eq_refl).
Defined.

(** ** The feedback service *)

Section Store.

Abbreviation FeedbackRecord := FeedbackService.FeedbackRecord.
Abbreviation Window := FeedbackService.Window.
Abbreviation readFromStorage := FeedbackService.readFromStorage.
Abbreviation persist := FeedbackService.persist.

Lemma read_persisted (records : list FeedbackRecord)
    (localStorage : gmap jsstring FeedbackService.StoredText) :
  readFromStorage (persist records (Some localStorage)) = records.
Proof.
  unfold FeedbackService.readFromStorage, FeedbackService.persist.
  by rewrite lookup_insert_eq.
Qed.

Lemma read_unusable (localStorage : gmap jsstring FeedbackService.StoredText) :
  FeedbackService.unusable localStorage -> readFromStorage (Some localStorage) = [].
Proof.
  unfold FeedbackService.unusable, FeedbackService.readFromStorage.
  destruct (localStorage !! FeedbackService.STORAGE_KEY) as [[text|value]|]; try done.
  - by destruct text.
  - by destruct value.
Qed.

Lemma sort_insert_Permutation {A : Type} (compare : A -> A -> Z) (x : A) (l : list A) :
  Permutation (x :: l) (FeedbackService.sort_insert compare x l).
Proof.
  induction l as [|y l IH]; simpl; [done|].
  case_decide; [done|]. rewrite <- IH. apply perm_swap.
Qed.

Lemma sort_Permutation {A : Type} (compare : A -> A -> Z) (l : list A) :
  Permutation l (FeedbackService.sort compare l).
Proof.
  induction l as [|x l IH]; simpl; [done|].
  rewrite <- sort_insert_Permutation. by constructor.
Qed.

Section ByKey.

Variables (A : Type) (key : A -> Z).

Let descending (first second : A) : Prop := (key second <= key first)%Z.
Let compare (first second : A) : Z := (key second - key first)%Z.

Lemma sort_insert_descending (x : A) (l : list A) :
  StronglySorted descending l ->
  StronglySorted descending (FeedbackService.sort_insert compare x l).
Proof.
  induction 1 as [|y l Hsorted IH Hall]; simpl.
  - repeat constructor.
  - unfold compare at 1. case_decide as Hle.
    + constructor; [by constructor|]. constructor; [unfold descending; lia|].
      eapply Forall_impl; [exact Hall|]. unfold descending. intros; lia.
    + constructor; [done|].
      rewrite <- (sort_insert_Permutation compare x l).
      constructor; [unfold descending; lia|done].
Qed.

Lemma sort_descending (l : list A) :
  StronglySorted descending (FeedbackService.sort compare l).
Proof.
  induction l as [|x l IH]; simpl; [constructor|].
  by apply sort_insert_descending.
Qed.

End ByKey.

Lemma list_newestFirst (window : Window) :
  StronglySorted FeedbackService.newestFirst (FeedbackService.list window).
Proof. apply (sort_descending _ FeedbackService.createdAt). Qed.

Lemma list_Permutation (window : Window) :
  Permutation (readFromStorage window) (FeedbackService.list window).
Proof. apply sort_Permutation. Qed.

Lemma filter_none {A : Type} (P : A -> Prop) `{!forall x, Decision (P x)} (l : list A) :
  Forall (fun x => ~ P x) l -> filter P l = [].
Proof.
  induction 1 as [|x l Hx Hl IH]; [done|].
  by rewrite filter_cons_False.
Qed.

(** On arrays of records: for every id that no stored record carries,
    [updateStatus] answers with [null] and the storage after the call is
    the storage before it. *)
Theorem updateStatus_missing (now : Z) (target : jsstring)
    (newStatus : FeedbackService.FeedbackStatus) (window : Window) :
  target ∉ (FeedbackService.id <$> readFromStorage window) ->
  FeedbackService.updateStatus now target newStatus window = (None, window).
Proof.
  intros Hmissing. unfold FeedbackService.updateStatus.
  destruct (list_find _ _) as [[index found]|] eqn:Hfind; [|done].
  apply list_find_Some in Hfind as (Hlookup & Hid & _).
  exfalso. apply Hmissing. apply list_elem_of_fmap. exists found.
  split; [done|]. by eapply list_elem_of_lookup_2.
Qed.

(** C4. With a storage at hand, the record [create] returns is pending,
    carries one time stamp as [createdAt] and [updatedAt], the drawn id and
    the fields of the input, and it is the record the storage holds
    afterwards, in front of the records read before. *)
Theorem create_pending (timestamp : Z) (newId : jsstring)
    (input : FeedbackService.FeedbackCreateInput)
    (localStorage : gmap jsstring FeedbackService.StoredText) :
  let created := FeedbackService.create timestamp newId input (Some localStorage) in
  FeedbackService.status created.1 = FeedbackService.pending
  /\ FeedbackService.createdAt created.1 = FeedbackService.updatedAt created.1
  /\ FeedbackService.createdAt created.1 = timestamp
  /\ FeedbackService.id created.1 = newId
  /\ FeedbackService.fields created.1 = input
  /\ readFromStorage created.2 = created.1 :: readFromStorage (Some localStorage)
  /\ created.2 = Some (<[FeedbackService.STORAGE_KEY :=
                          FeedbackService.JSON_stringify
                            (created.1 :: readFromStorage (Some localStorage))]> localStorage).
Proof.
  cbv zeta. unfold FeedbackService.create. cbn [fst snd].
  repeat split. by rewrite read_persisted.
Qed.

(** C6. After one [create] the list holds the created record, made of the
    input's fields, the drawn id, the time stamp twice and the pending
    status, next to the records stored before: exactly once when the id is
    fresh, and alone when nothing was stored. Every list is a rearrangement
    of the stored records, newest first. *)
Theorem create_list_roundtrip (timestamp : Z) (newId : jsstring)
    (input : FeedbackService.FeedbackCreateInput)
    (localStorage : gmap jsstring FeedbackService.StoredText) :
  let record :=
    {| FeedbackService.id := newId;
       FeedbackService.status := FeedbackService.pending;
       FeedbackService.createdAt := timestamp;
       FeedbackService.updatedAt := timestamp;
       FeedbackService.fields := input |} in
  let created := FeedbackService.create timestamp newId input (Some localStorage) in
  created.1 = record
  /\ Permutation (record :: readFromStorage (Some localStorage))
       (FeedbackService.list created.2)
  /\ (newId ∉ (FeedbackService.id <$> readFromStorage (Some localStorage)) ->
      filter (fun r => FeedbackService.id r = newId) (FeedbackService.list created.2)
      = [record])
  /\ (readFromStorage (Some localStorage) = [] ->
      FeedbackService.list created.2 = [record])
  /\ (forall window : Window,
        StronglySorted FeedbackService.newestFirst (FeedbackService.list window)
        /\ Permutation (readFromStorage window) (FeedbackService.list window)).
Proof.
  cbv zeta. unfold FeedbackService.create. cbn [fst snd].
  set (record := FeedbackService.mkRecord newId FeedbackService.pending timestamp timestamp input).
  assert (Permutation (record :: readFromStorage (Some localStorage))
            (FeedbackService.list (persist (record :: readFromStorage (Some localStorage))
                                     (Some localStorage)))) as Hperm.
  { rewrite <- list_Permutation. by rewrite read_persisted. }
  split; [done|]. split; [done|]. split; [|split].
  - intros Hfresh.
    symmetry. apply Permutation_singleton_l.
    rewrite <- Hperm. rewrite filter_cons_True by done.
    rewrite filter_none; [done|].
    apply Forall_forall. intros r Hr Hid. apply Hfresh.
    apply list_elem_of_fmap. eauto.
  - intros Hempty. rewrite Hempty in *.
    symmetry. by apply Permutation_singleton_l.
  - intros window. split; [apply list_newestFirst|apply list_Permutation].
Qed.

(** C10. When nothing is stored under the key, or the stored text does not
    parse, or it parses to a value that is no array, the service goes on
    as over an empty store: the list is empty, [create] returns its record
    and stores the singleton list, and [updateStatus] answers with [null]
    and stores nothing. *)
Theorem unusable_content_reads_empty (timestamp now : Z) (newId target : jsstring)
    (input : FeedbackService.FeedbackCreateInput)
    (newStatus : FeedbackService.FeedbackStatus)
    (localStorage : gmap jsstring FeedbackService.StoredText) :
  FeedbackService.unusable localStorage ->
  FeedbackService.list (Some localStorage) = []
  /\ FeedbackService.create timestamp newId input (Some localStorage)
     = ({| FeedbackService.id := newId;
           FeedbackService.status := FeedbackService.pending;
           FeedbackService.createdAt := timestamp;
           FeedbackService.updatedAt := timestamp;
           FeedbackService.fields := input |},
        Some (<[FeedbackService.STORAGE_KEY :=
                  FeedbackService.JSON_stringify
                    [ {| FeedbackService.id := newId;
                         FeedbackService.status := FeedbackService.pending;
                         FeedbackService.createdAt := timestamp;
                         FeedbackService.updatedAt := timestamp;
                         FeedbackService.fields := input |} ]]> localStorage))
  /\ FeedbackService.updateStatus now target newStatus (Some localStorage)
     = (None, Some localStorage).
Proof.
  intros Hunusable. pose proof (read_unusable _ Hunusable) as Hread.
  unfold FeedbackService.list, FeedbackService.create, FeedbackService.updateStatus.
  rewrite Hread. done.
Qed.

End Store.

(** An update for an id the sample storage does not hold. *)
Lemma updateStatus_missing_witness :
  (js "fbk_2" ∉ (FeedbackService.id <$> FeedbackService.readFromStorage (Some Samples.storage)))
  /\ FeedbackService.updateStatus 1700000400000 (js "fbk_2") FeedbackService.invalid
       (Some Samples.storage)
     = (None, Some Samples.storage).
Proof.
  assert (js "fbk_2" ∉ (FeedbackService.id
            <$> FeedbackService.readFromStorage (Some Samples.storage))) as Hmissing.
  { refine (bool_decide_unpack _ _). vm_compute. exact I. }
  split; [exact Hmissing|].
  exact (updateStatus_missing 1700000400000 (js "fbk_2") FeedbackService.invalid
           (Some Samples.storage) Hmissing).
Defined.

(** The three operations over a storage whose text does not parse. *)
Lemma unusable_content_reads_empty_witness :
  FeedbackService.unusable Samples.brokenStorage
  /\ FeedbackService.list (Some Samples.brokenStorage) = []
  /\ FeedbackService.readFromStorage
       (FeedbackService.create 1700000400000 (js "fbk_2") Samples.sampleInput
          (Some Samples.brokenStorage)).2
     = [ {| FeedbackService.id := js "fbk_2";
            FeedbackService.status := FeedbackService.pending;
            FeedbackService.createdAt := 1700000400000;
            FeedbackService.updatedAt := 1700000400000;
            FeedbackService.fields := Samples.sampleInput |} ]
  /\ FeedbackService.updateStatus 1700000400000 (js "fbk_1") FeedbackService.invalid
       (Some Samples.brokenStorage)
     = (None, Some Samples.brokenStorage).
Proof.
  assert (FeedbackService.unusable Samples.brokenStorage) as Hbroken.
  { vm_compute. exact I. }
  split; [exact Hbroken|].
  destruct (unusable_content_reads_empty 1700000400000 1700000400000 (js "fbk_2")
              (js "fbk_1") Samples.sampleInput FeedbackService.invalid
              Samples.brokenStorage Hbroken) as (Hlist & Hcreate & Hupdate).
  split; [exact Hlist|]. split; [|exact Hupdate].
  rewrite Hcreate. apply read_persisted.
Defined.

(** ** The feedback service over whatever the storage holds *)

Section ParsedStoreFacts.

Import ParsedStore.

Abbreviation Normal := FeedbackService.Normal.
Abbreviation Throw := FeedbackService.Throw.

Lemma strictlyEqual_carries (id : jsstring) (properties : list (jsstring * value)) :
  strictlyEqual (getOwn (js "id") properties) id = true
  <-> carries id (VObject properties).
Proof.
  unfold carries, strictlyEqual. split.
  - intros Hequal. exists properties. split; [done|].
    destruct (getOwn (js "id") properties) as [[| | |text| |]|]; try done.
    by apply bool_decide_eq_true in Hequal as ->.
  - intros (found & [= <-] & ->). by apply bool_decide_eq_true.
Qed.

Lemma shifted_none (found : FeedbackService.completion (option nat)) :
  match found with
  | FeedbackService.Throw => Throw
  | FeedbackService.Normal index => Normal (S <$> index)
  end = Normal None
  <-> found = Normal None.
Proof. destruct found as [[index|]|]; split; intros [=]; done. Qed.

Lemma findIndex_none (id : jsstring) (records : list value) :
  findIndex id records = Normal None
  <-> Forall (fun record => record <> VNull /\ ~ carries id record) records.
Proof.
  induction records as [|record records IH]; [done|].
  rewrite Forall_cons, <- IH. cbn [findIndex].
  assert (forall other : value,
            (forall properties, other <> VObject properties) ->
            ~ carries id other) as Hother.
  { intros other Hshape (properties & Hrecord & _). by eapply Hshape. }
  destruct record as [|b|literal|text|elements|properties];
    cbn [recordId strictlyEqual].
  - split; [done|]. by intros [[? _] _].
  - rewrite shifted_none. split; [|by intros [_ ?]].
    intros Hrest. split; [|done]. split; [done|]. by apply Hother.
  - rewrite shifted_none. split; [|by intros [_ ?]].
    intros Hrest. split; [|done]. split; [done|]. by apply Hother.
  - rewrite shifted_none. split; [|by intros [_ ?]].
    intros Hrest. split; [|done]. split; [done|]. by apply Hother.
  - rewrite shifted_none. split; [|by intros [_ ?]].
    intros Hrest. split; [|done]. split; [done|]. by apply Hother.
  - destruct (strictlyEqual (getOwn (js "id") properties) id) eqn:Hequal.
    + apply strictlyEqual_carries in Hequal. split; [done|]. by intros [[_ Hnot] _].
    + assert (~ carries id (VObject properties)) as Hnot.
      { intros Hcarries. apply strictlyEqual_carries in Hcarries. congruence. }
      rewrite shifted_none. split; [|by intros [_ ?]]. intros Hrest. done.
Qed.

Lemma findIndex_throws (id : jsstring) (records : list value) :
  findIndex id records = Throw
  <-> exists before rest,
        records = before ++ VNull :: rest
        /\ Forall (fun record => record <> VNull /\ ~ carries id record) before.
Proof.
  induction records as [|record records IH].
  { split; [done|]. intros (before & rest & Hsplit & _). by destruct before. }
  assert (forall other : value,
            other <> VNull ->
            (exists before rest,
               other :: records = before ++ VNull :: rest
               /\ Forall (fun record => record <> VNull /\ ~ carries id record) before)
            <-> ~ carries id other
                /\ exists before rest,
                     records = before ++ VNull :: rest
                     /\ Forall (fun record => record <> VNull /\ ~ carries id record)
                          before) as Hlater.
  { intros other Hother. split.
    - intros (before & rest & Hsplit & Hbefore).
      destruct before as [|first before]; simplify_eq/=.
      apply Forall_cons in Hbefore as [[_ Hnot] Hbefore]. split; [done|].
      by exists before, rest.
    - intros (Hnot & before & rest & -> & Hbefore).
      exists (other :: before), rest. split; [done|]. by apply Forall_cons. }
  assert (forall found : FeedbackService.completion (option nat),
            match found with
            | FeedbackService.Throw => Throw
            | FeedbackService.Normal index => Normal (S <$> index)
            end = Throw
            <-> found = Throw) as Hshift.
  { intros [index|]; split; intros [=]; done. }
  assert (forall other : value,
            (forall properties, other <> VObject properties) ->
            ~ carries id other) as Hother.
  { intros other Hshape (properties & Hrecord & _). by eapply Hshape. }
  cbn [findIndex].
  destruct record as [|b|literal|text|elements|properties];
    cbn [recordId strictlyEqual].
  - split; [|done]. intros _. by exists [], records.
  - rewrite Hshift, IH, Hlater by done. split; [|by intros [_ ?]].
    intros Hrest. split; [|done]. by apply Hother.
  - rewrite Hshift, IH, Hlater by done. split; [|by intros [_ ?]].
    intros Hrest. split; [|done]. by apply Hother.
  - rewrite Hshift, IH, Hlater by done. split; [|by intros [_ ?]].
    intros Hrest. split; [|done]. by apply Hother.
  - rewrite Hshift, IH, Hlater by done. split; [|by intros [_ ?]].
    intros Hrest. split; [|done]. by apply Hother.
  - rewrite Hlater by done.
    destruct (strictlyEqual (getOwn (js "id") properties) id) eqn:Hequal.
    + apply strictlyEqual_carries in Hequal. split; [done|]. by intros [Hnot _].
    + assert (~ carries id (VObject properties)) as Hnot.
      { intros Hcarries. apply strictlyEqual_carries in Hcarries. congruence. }
      rewrite Hshift, IH. split; [done|]. by intros [_ ?].
Qed.

(** C3, amended. Whatever the storage holds, [updateStatus] answers with
    [null] and leaves the storage as it is exactly when no element of the
    stored array is [null] and none is an object whose [id] is the given
    id; a storage with no window, no text, a text that does not parse or a
    value that is no array counts as an empty array. And it throws exactly
    when the array holds [null] with no such object and no [null] before
    it. *)
Theorem updateStatus_not_found (now id status : jsstring) (window : Window) :
  (updateStatus now id status window = Normal (None, window)
   <-> Forall (fun record => record <> VNull /\ ~ carries id record)
         (readFromStorage window))
  /\ (updateStatus now id status window = Throw
      <-> exists before rest,
            readFromStorage window = before ++ VNull :: rest
            /\ Forall (fun record => record <> VNull /\ ~ carries id record) before).
Proof.
  rewrite <- findIndex_none, <- findIndex_throws. unfold updateStatus.
  destruct (findIndex id (readFromStorage window)) as [[index|]|];
    split; split; done.
Qed.
End ParsedStoreFacts.

(** An id the mixed sample storage does not hold. *)
Lemma updateStatus_not_found_witness :
  ParsedStore.updateStatus Samples.isoNow (js "fbk_2") (js "invalid")
    (Some Samples.mixedStorage)
  = FeedbackService.Normal (None, Some Samples.mixedStorage).
Proof.
  apply (proj2 (proj1 (updateStatus_not_found Samples.isoNow (js "fbk_2")
                         (js "invalid") (Some Samples.mixedStorage)))).
  vm_compute.
  repeat (apply Forall_cons; split;
          [split; [discriminate|intros (properties & Hrecord & Hid);
                                 try discriminate Hrecord;
                                 injection Hrecord as <-; vm_compute in Hid;
                                 discriminate Hid]|]).
  apply Forall_nil. exact I.
Defined.

(** C3 as stated fails in the service on a stored array that holds
    [null]: no element carries the id, and the call throws. It fails in the
    route as well: the action answers a status change with the call of the
    database client and has no other answer than that call and its three
    refusals, none of which tells of a missing record. *)
Lemma updateStatus_not_found_counterexample :
  Forall (fun record => ~ ParsedStore.carries (js "fbk_2") record)
    (ParsedStore.readFromStorage (Some Samples.nullStorage))
  /\ ParsedStore.updateStatus Samples.isoNow (js "fbk_2") (js "invalid")
       (Some Samples.nullStorage)
     = FeedbackService.Throw
  /\ Route.action Samples.asciiUpper
       (Route.handleStatusChange (js "fbk_2") Route.RESOLVED)
     = Route.dbUpdate (js "fbk_2") (js "RESOLVED")
  /\ forall toUpperCase formData,
       match Route.action toUpperCase formData with
       | Route.badRequest message =>
           message = Route.invalidStatus
           \/ message = Route.unknownIntent
           \/ exists key, key ∈ Route.requiredFields
                          /\ message = Route.missingField ++ key
       | Route.dbCreate _ => True
       | Route.dbUpdate _ _ => True
       end.
Proof.
  split.
  { vm_compute. apply Forall_cons. split; [|apply Forall_nil; exact I].
    intros (properties & Hrecord & _). discriminate Hrecord. }
  split; [vm_compute; reflexivity|]. split; [vm_compute; reflexivity|].
  intros toUpperCase formData. unfold Route.action.
  destruct (decide _) as [Hcreate|Hcreate].
  - destruct (list_find _ _) as [[index key]|] eqn:Hfind; [|exact I].
    right. right. exists key. split; [|reflexivity].
    apply list_find_Some in Hfind as (Hlookup & _).
    by eapply list_elem_of_lookup_2.
  - destruct (decide _) as [Hupdate|Hupdate]; [|by right; left].
    destruct (Route.toString <$> Route.get (js "id") formData) as [id|]; [|by left].
    destruct (_ <$> Route.get (js "status") formData) as [status|]; [|by left].
    destruct (_ || _); [by left|exact I].
Qed.

(** * Further properties *)

(** ** The feedback service, continued *)

Section StoreMore.

Abbreviation FeedbackRecord := FeedbackService.FeedbackRecord.
Abbreviation Window := FeedbackService.Window.
Abbreviation readFromStorage := FeedbackService.readFromStorage.
Abbreviation persist := FeedbackService.persist.
Abbreviation byNewest :=
  (fun first second : FeedbackService.FeedbackRecord =>
     (FeedbackService.createdAt second - FeedbackService.createdAt first)%Z).

Lemma list_find_first {A : Type} (P : A -> Prop) `{!forall x, Decision (P x)}
    (l : list A) (x : A) :
  x ∈ l -> P x -> exists i y, list_find P l = Some (i, y).
Proof.
  intros Hin HP. destruct (list_find P l) as [[i y]|] eqn:Hfind; [eauto|].
  apply list_find_None in Hfind. rewrite Forall_forall in Hfind.
  by destruct (Hfind x Hin).
Qed.

(** X1. [updateStatus] on an id the storage holds: the first record with
    that id is the one replaced, by a copy with the new status and the
    new [updatedAt] that keeps its id, its creation stamp and its fields;
    that copy is the answer; the storage holds the same number of records
    with the same ids in the same places, and every other record is
    untouched. *)
Theorem updateStatus_found (now : Z) (target : jsstring)
    (newStatus : FeedbackService.FeedbackStatus)
    (localStorage : gmap jsstring FeedbackService.StoredText) :
  target ∈ (FeedbackService.id <$> readFromStorage (Some localStorage)) ->
  exists index found,
    let records := readFromStorage (Some localStorage) in
    let updated :=
      {| FeedbackService.id := target;
         FeedbackService.status := newStatus;
         FeedbackService.createdAt := FeedbackService.createdAt found;
         FeedbackService.updatedAt := now;
         FeedbackService.fields := FeedbackService.fields found |} in
    let after := (FeedbackService.updateStatus now target newStatus (Some localStorage)).2 in
    records !! index = Some found
    /\ FeedbackService.id found = target
    /\ (forall j r, j < index -> records !! j = Some r -> FeedbackService.id r <> target)
    /\ (FeedbackService.updateStatus now target newStatus (Some localStorage)).1
       = Some updated
    /\ after = Some (<[FeedbackService.STORAGE_KEY :=
                        FeedbackService.JSON_stringify (<[index := updated]> records)]>
                      localStorage)
    /\ readFromStorage after = <[index := updated]> records
    /\ length (readFromStorage after) = length records
    /\ FeedbackService.id <$> readFromStorage after = FeedbackService.id <$> records
    /\ (forall j r, records !! j = Some r -> j <> index -> readFromStorage after !! j = Some r).
Proof.
  intros Hin. apply list_elem_of_fmap in Hin as (r & Hid & Hr).
  destruct (list_find_first (fun record => FeedbackService.id record = target)
              _ r Hr (eq_sym Hid)) as (index & found & Hfind).
  exists index, found. cbv zeta.
  unfold FeedbackService.updateStatus. rewrite Hfind. cbn [fst snd].
  apply list_find_Some in Hfind as (Hlookup & Hfound & Hbefore).
  rewrite Hfound, read_persisted.
  split; [done|]. split; [done|]. split; [eauto|]. split; [done|].
  split; [done|]. split; [done|]. split; [by rewrite length_insert|].
  split.
  - rewrite list_fmap_insert. apply list_insert_id.
    rewrite list_lookup_fmap, Hlookup. simpl. by rewrite Hfound.
  - intros j r' Hj Hne. by rewrite list_lookup_insert_ne.
Qed.

(** Stability of the listing. *)
Lemma sort_insert_filter {A : Type} (key : A -> Z) (t : Z) (x : A) (l : list A) :
  filter (fun y => key y = t)
    (FeedbackService.sort_insert (fun first second => (key second - key first)%Z) x l)
  = filter (fun y => key y = t) (x :: l).
Proof.
  induction l as [|y l IH]; [done|]. cbn [FeedbackService.sort_insert].
  case_decide as Hle; [done|].
  rewrite filter_cons, IH, !filter_cons.
  destruct (decide (key y = t)), (decide (key x = t)); try done. lia.
Qed.

Lemma sort_filter {A : Type} (key : A -> Z) (t : Z) (l : list A) :
  filter (fun y => key y = t)
    (FeedbackService.sort (fun first second => (key second - key first)%Z) l)
  = filter (fun y => key y = t) l.
Proof.
  induction l as [|x l IH]; [done|]. cbn [FeedbackService.sort foldr].
  rewrite sort_insert_filter, !filter_cons. fold (FeedbackService.sort (fun first second => (key second - key first)%Z) l).
  by rewrite IH.
Qed.

(** X2. [list] is stable: the records created at the same instant are
    listed in the order the storage holds them. *)
Theorem list_stable (window : Window) (t : Z) :
  filter (fun r => FeedbackService.createdAt r = t) (FeedbackService.list window)
  = filter (fun r => FeedbackService.createdAt r = t) (readFromStorage window).
Proof. apply (sort_filter FeedbackService.createdAt). Qed.

Lemma sort_sorted_id {A : Type} (key : A -> Z) (l : list A) :
  StronglySorted (fun first second => (key second <= key first)%Z) l ->
  FeedbackService.sort (fun first second => (key second - key first)%Z) l = l.
Proof.
  induction 1 as [|x l Hsorted IH Hall]; [done|].
  cbn [FeedbackService.sort foldr].
  fold (FeedbackService.sort (fun first second => (key second - key first)%Z) l).
  rewrite IH. destruct l as [|y l]; [done|]. cbn [FeedbackService.sort_insert].
  apply Forall_cons in Hall as [Hy _]. rewrite decide_True by lia. done.
Qed.

Lemma sort_insert_head {A : Type} (key : A -> Z) (x : A) (l : list A) :
  Forall (fun y => (key y <= key x)%Z) l ->
  FeedbackService.sort_insert (fun first second => (key second - key first)%Z) x l = x :: l.
Proof.
  destruct 1 as [|y l Hy Hl]; [done|]. cbn [FeedbackService.sort_insert].
  rewrite decide_True by lia. done.
Qed.

(** X3. When the clock is not behind the stored creation stamps, the
    record [create] stores is the first of the next listing and the rest of
    the listing is as before; and a storage that is newest first stays
    newest first, so that the listing is the storage itself. *)
Theorem create_shows_first (timestamp : Z) (newId : jsstring)
    (input : FeedbackService.FeedbackCreateInput)
    (localStorage : gmap jsstring FeedbackService.StoredText) :
  Forall (fun r => (FeedbackService.createdAt r <= timestamp)%Z)
    (readFromStorage (Some localStorage)) ->
  let created := FeedbackService.create timestamp newId input (Some localStorage) in
  FeedbackService.list created.2
  = created.1 :: FeedbackService.list (Some localStorage)
  /\ (StronglySorted FeedbackService.newestFirst (readFromStorage (Some localStorage)) ->
      StronglySorted FeedbackService.newestFirst (readFromStorage created.2)
      /\ FeedbackService.list created.2 = readFromStorage created.2).
Proof.
  intros Hclock. cbv zeta. unfold FeedbackService.create. cbn [fst snd].
  rewrite read_persisted. split.
  - unfold FeedbackService.list. rewrite read_persisted.
    cbn [FeedbackService.sort foldr].
    apply (sort_insert_head FeedbackService.createdAt).
    rewrite <- (sort_Permutation _ (readFromStorage (Some localStorage))). done.
  - intros Hsorted.
    assert (StronglySorted FeedbackService.newestFirst
              (FeedbackService.mkRecord newId FeedbackService.pending timestamp timestamp input
                 :: readFromStorage (Some localStorage))) as Hnew.
    { constructor; [done|]. eapply Forall_impl; [exact Hclock|]. done. }
    split; [done|]. unfold FeedbackService.list. rewrite read_persisted.
    by apply (sort_sorted_id FeedbackService.createdAt).
Qed.

Lemma Forall2_sort_insert {A : Type} (key : A -> Z) (R : A -> A -> Prop)
    (x x' : A) (l l' : list A) :
  (forall a b, R a b -> key a = key b) -> R x x' -> Forall2 R l l' ->
  Forall2 R
    (FeedbackService.sort_insert (fun first second => (key second - key first)%Z) x l)
    (FeedbackService.sort_insert (fun first second => (key second - key first)%Z) x' l').
Proof.
  intros Hkey Hx. induction 1 as [|y y' l l' Hy Hl IH]; cbn [FeedbackService.sort_insert].
  - by repeat constructor.
  - rewrite <- (Hkey _ _ Hx), <- (Hkey _ _ Hy).
    case_decide; repeat constructor; done.
Qed.

Lemma Forall2_sort {A : Type} (key : A -> Z) (R : A -> A -> Prop) (l l' : list A) :
  (forall a b, R a b -> key a = key b) -> Forall2 R l l' ->
  Forall2 R
    (FeedbackService.sort (fun first second => (key second - key first)%Z) l)
    (FeedbackService.sort (fun first second => (key second - key first)%Z) l').
Proof.
  intros Hkey. induction 1 as [|x x' l l' Hx Hl IH]; [constructor|].
  cbn [FeedbackService.sort foldr]. by apply Forall2_sort_insert.
Qed.

Lemma Forall2_same {A : Type} (R : A -> A -> Prop) (l : list A) :
  (forall a, R a a) -> Forall2 R l l.
Proof. intros Hrefl. induction l; by constructor. Qed.

Lemma Forall2_insert_refl {A : Type} (R : A -> A -> Prop) (l : list A) (i : nat)
    (x y : A) :
  (forall a, R a a) -> l !! i = Some x -> R x y -> Forall2 R l (<[i := y]> l).
Proof.
  intros Hrefl. revert i. induction l as [|a l IH]; intros i Hi Hxy; [done|].
  destruct i as [|i]; simpl in *.
  - simplify_eq. constructor; [done|]. by apply Forall2_same.
  - constructor; [done|]. by apply IH.
Qed.

(** X4. [updateStatus] never reorders the listing: before and after the
    call the listing holds the same records in the same places, up to the
    status and [updatedAt] of the record that changed. *)
Theorem updateStatus_keeps_order (now : Z) (target : jsstring)
    (newStatus : FeedbackService.FeedbackStatus) (window : Window) :
  Forall2 (FeedbackService.sameEntry now target newStatus)
    (FeedbackService.list window)
    (FeedbackService.list (FeedbackService.updateStatus now target newStatus window).2).
Proof.
  assert (forall a, FeedbackService.sameEntry now target newStatus a a) as Hrefl.
  { intros a. unfold FeedbackService.sameEntry. tauto. }
  unfold FeedbackService.list. apply (Forall2_sort FeedbackService.createdAt).
  { unfold FeedbackService.sameEntry. intros a b H. symmetry. tauto. }
  unfold FeedbackService.updateStatus.
  destruct (list_find _ _) as [[index found]|] eqn:Hfind; cbn [snd].
  - apply list_find_Some in Hfind as (Hlookup & Hfound & _).
    destruct window as [localStorage|]; [|done].
    rewrite read_persisted. eapply Forall2_insert_refl; [done|done|].
    unfold FeedbackService.sameEntry. simpl. tauto.
  - by apply Forall2_same.
Qed.

(** X5. A record that was just created is found by [updateStatus] under
    its id: the answer is that record with the new status and the new
    [updatedAt], and the storage holds it in front of the older records. *)
Theorem create_then_updateStatus (timestamp now : Z) (newId : jsstring)
    (input : FeedbackService.FeedbackCreateInput)
    (newStatus : FeedbackService.FeedbackStatus)
    (localStorage : gmap jsstring FeedbackService.StoredText) :
  let created := FeedbackService.create timestamp newId input (Some localStorage) in
  let updated :=
    {| FeedbackService.id := newId;
       FeedbackService.status := newStatus;
       FeedbackService.createdAt := timestamp;
       FeedbackService.updatedAt := now;
       FeedbackService.fields := input |} in
  let changed := FeedbackService.updateStatus now newId newStatus created.2 in
  changed.1 = Some updated
  /\ readFromStorage changed.2 = updated :: readFromStorage (Some localStorage).
Proof.
  cbv zeta. unfold FeedbackService.create, FeedbackService.updateStatus. cbn [fst snd].
  rewrite read_persisted. cbn [list_find]. rewrite decide_True by done.
  cbn [fst snd fmap option_fmap option_map].
  split; [done|].
  unfold FeedbackService.persist, FeedbackService.readFromStorage.
  by rewrite lookup_insert_eq.
Qed.
End StoreMore.

(** ** Texts and snapshots *)

Section Texts.
Import Text.

Lemma trimStart_blank (s : jsstring) : blank s = true -> trimStart s = [].
Proof.
  induction s as [|c s IH]; [done|]. simpl. intros H.
  apply andb_true_iff in H as [Hc Hs]. rewrite Hc. by apply IH.
Qed.

Lemma trimStart_startsClean (s : jsstring) : startsClean (trimStart s) = true.
Proof.
  induction s as [|c s IH]; [done|]. simpl.
  destruct (is_space c) eqn:Hc; [done|]. simpl. by rewrite Hc.
Qed.

Lemma trimStart_clean (s : jsstring) : startsClean s = true -> trimStart s = s.
Proof. destruct s as [|c s]; [done|]. simpl. by destruct (is_space c). Qed.

Lemma trimStart_nil_blank (s : jsstring) : trimStart s = [] -> blank s = true.
Proof.
  induction s as [|c s IH]; [done|]. simpl.
  destruct (is_space c); [by apply IH|done].
Qed.

(** Stripping the front leaves the end as it is. *)
Lemma trimStart_last (s : jsstring) :
  trimStart s <> [] -> last (trimStart s) = last s.
Proof.
  induction s as [|c s IH]; [done|]. simpl.
  destruct (is_space c); [|done]. intros Hne. rewrite IH by done.
  destruct s; [done|done].
Qed.

Lemma blank_reverse (s : jsstring) : blank (reverse s) = blank s.
Proof.
  unfold blank. induction s as [|c s IH]; [done|].
  rewrite reverse_cons, forallb_app. simpl. rewrite IH. 
  destruct (is_space c), (forallb is_space s); done.
Qed.

Lemma startsClean_reverse (s : jsstring) : startsClean (reverse s) = endsClean s.
Proof.
  unfold startsClean, endsClean. rewrite <- head_reverse.
  by destruct (reverse s).
Qed.

Lemma endsClean_reverse (s : jsstring) : endsClean (reverse s) = startsClean s.
Proof. by rewrite <- startsClean_reverse, reverse_involutive. Qed.

Lemma trim_blank (s : jsstring) : trim s = [] <-> blank s = true.
Proof.
  unfold trim. split.
  - intros H. apply (f_equal reverse) in H. rewrite reverse_involutive in H.
    simpl in H. apply trimStart_nil_blank in H. rewrite blank_reverse in H.
    destruct (decide (trimStart s = [])) as [Hnil|Hne]; [by apply trimStart_nil_blank|].
    exfalso. pose proof (trimStart_startsClean s) as Hclean.
    destruct (trimStart s) as [|c rest]; [done|]. simpl in *.
    apply andb_true_iff in H as [Hc _]. by rewrite Hc in Hclean.
  - intros H. by rewrite (trimStart_blank s H).
Qed.

Lemma trim_clean (s : jsstring) :
  startsClean (trim s) = true /\ endsClean (trim s) = true.
Proof.
  unfold trim. rewrite endsClean_reverse, trimStart_startsClean. split; [|done].
  rewrite startsClean_reverse.
  destruct (decide (trimStart (reverse (trimStart s)) = [])) as [Hnil|Hne].
  { by rewrite Hnil. }
  unfold endsClean. rewrite trimStart_last by done. rewrite last_reverse.
  pose proof (trimStart_startsClean s) as Hclean.
  by destruct (trimStart s).
Qed.

Lemma trim_fixed (s : jsstring) :
  startsClean s = true -> endsClean s = true -> trim s = s.
Proof.
  intros Hs He. unfold trim. rewrite (trimStart_clean s Hs).
  rewrite trimStart_clean by (by rewrite startsClean_reverse).
  apply reverse_involutive.
Qed.

Lemma trim_idempotent (s : jsstring) : trim (trim s) = trim s.
Proof. destruct (trim_clean s). by apply trim_fixed. Qed.

Lemma trimStart_split (s : jsstring) :
  exists before, s = before ++ trimStart s /\ blank before = true.
Proof.
  induction s as [|c s (before & Hs & Hb)]; [by exists []|]. simpl.
  destruct (is_space c) eqn:Hc; [|by exists []].
  exists (c :: before). simpl. rewrite Hc, Hb. split; [|done]. f_equal. exact Hs.
Qed.

(** The model of [trim] does what [trim] does: it removes white space at the two ends and nothing else: the
    text is the trimmed text between two runs of white space, the trimmed
    text neither starts nor ends with white space, it is empty exactly for
    a text of white space only, and a text that is clean at both ends is
    left as it is, so that trimming twice is trimming once. *)
Lemma trim_normal (s : jsstring) :
  (trim s = [] <-> blank s = true)
  /\ startsClean (trim s) = true
  /\ endsClean (trim s) = true
  /\ trim (trim s) = trim s
  /\ (startsClean s = true -> endsClean s = true -> trim s = s)
  /\ exists before after,
       s = before ++ trim s ++ after /\ blank before = true /\ blank after = true.
Proof.
  split; [apply trim_blank|]. destruct (trim_clean s) as [Hstart Hend].
  split; [done|]. split; [done|]. split; [apply trim_idempotent|].
  split; [apply trim_fixed|].
  destruct (trimStart_split s) as (before & Hs & Hbefore).
  destruct (trimStart_split (reverse (trimStart s))) as (after & Ht & Hafter).
  exists before, (reverse after). split; [|by rewrite blank_reverse].
  unfold trim. rewrite <- reverse_app, <- Ht, reverse_involutive. exact Hs.
Qed.

Lemma collapse_shape (inRun : bool) (s : jsstring) :
  singleSpaced (collapse inRun s) = true
  /\ (inRun = true -> startsClean (collapse inRun s) = true).
Proof.
  revert inRun. induction s as [|c s IH]; intros inRun; [done|]. simpl.
  destruct (is_space c) eqn:Hc.
  - destruct inRun.
    + apply IH.
    + destruct (IH true) as [Hsingle Hstart]. specialize (Hstart eq_refl).
      split; [|done]. simpl. rewrite Hsingle.
      destruct (collapse true s) as [|d rest]; [done|]. simpl in *.
      apply negb_true_iff in Hstart. by rewrite Hstart.
  - destruct (IH false) as [Hsingle _]. simpl. rewrite Hc, Hsingle. simpl.
    split; [by destruct (collapse false s)|done].
Qed.

Lemma collapse_startsClean (s : jsstring) :
  startsClean s = true -> startsClean (collapse false s) = true.
Proof.
  destruct s as [|c s]; [done|]. cbn [startsClean collapse]. intros Hc.
  apply negb_true_iff in Hc. rewrite Hc. cbn [startsClean]. by rewrite Hc.
Qed.

Lemma collapse_snoc (inRun : bool) (s : jsstring) (c : N) :
  is_space c = false -> collapse inRun (s ++ [c]) = collapse inRun s ++ [c].
Proof.
  intros Hc. revert inRun. induction s as [|d s IH]; intros inRun; simpl.
  - by rewrite Hc.
  - destruct (is_space d); [destruct inRun|]; by rewrite IH.
Qed.

Lemma collapse_endsClean (s : jsstring) :
  endsClean s = true -> endsClean (collapse false s) = true.
Proof.
  destruct s as [|c s _] using rev_ind; [done|].
  unfold endsClean. rewrite last_snoc. intros Hc. apply negb_true_iff in Hc.
  rewrite collapse_snoc by done. rewrite last_snoc. by rewrite Hc.
Qed.

Lemma singleSpaced_take (n : nat) (s : jsstring) :
  singleSpaced s = true -> singleSpaced (take n s) = true.
Proof.
  revert n. induction s as [|c s IH]; intros n; [by destruct n|].
  destruct n as [|n]; [done|]. simpl. intros H.
  apply andb_true_iff in H as [H Hs]. apply andb_true_iff in H as [Hc Hnext].
  rewrite Hc, (IH n Hs). simpl. destruct s as [|d s]; [by destruct n|].
  destruct n; [done|]. simpl. by rewrite Hnext.
Qed.

Lemma singleSpaced_app (a b : jsstring) :
  singleSpaced a = true -> singleSpaced b = true -> startsClean b = true ->
  singleSpaced (a ++ b) = true.
Proof.
  intros Ha Hb Hstart. induction a as [|c a IH]; [done|]. simpl in *.
  apply andb_true_iff in Ha as [H Hs]. apply andb_true_iff in H as [Hc Hnext].
  rewrite Hc, (IH Hs). simpl. destruct a as [|d a]; simpl.
  - destruct b as [|d b]; [done|]. simpl in Hstart.
    apply negb_true_iff in Hstart. rewrite Hstart. by destruct (is_space c).
  - by rewrite Hnext.
Qed.

Lemma startsClean_take (n : nat) (s : jsstring) :
  startsClean s = true -> startsClean (take n s) = true.
Proof. destruct s, n; done. Qed.

(** X6. The text preview of a snapshot is normalised: its only white
    space is the plain space, never two in a row, and none at either end,
    also after truncation. The route builds the same preview. *)
Theorem textPreview_normal (element : Element) (href : jsstring) :
  let preview := App.textPreview (App.createElementSnapshot element href) in
  singleSpaced preview = true
  /\ startsClean preview = true
  /\ endsClean preview = true
  /\ App.textPreview (Remix.createElementSnapshot element href) = preview.
Proof.
  cbv zeta. unfold App.createElementSnapshot, Remix.createElementSnapshot.
  cbn [App.textPreview].
  set (text := default [] ((fun t => collapseSpaces (trim t)) <$> textContent element)).
  assert (singleSpaced text = true /\ startsClean text = true /\ endsClean text = true)
    as (Hsingle & Hstart & Hend).
  { unfold text. destruct (textContent element) as [t|]; [|done]. simpl.
    destruct (trim_clean t) as [Hs He]. unfold collapseSpaces.
    split; [apply collapse_shape|].
    split; [by apply collapse_startsClean|by apply collapse_endsClean]. }
  split; [|split; [|split; [|done]]]; case_decide; try done; unfold slice0.
  - apply singleSpaced_app; [by apply singleSpaced_take|done|done].
  - destruct text as [|c text]; [done|]. done.
  - vm_compute (js "..."). unfold endsClean.
    rewrite (assoc_L (++) _ [46%N; 46%N] [46%N]), last_snoc. done.
Qed.

Lemma selectorPart_fallback (fallback fallback' : jsstring) (node : Element) :
  is_Some (Dom.tagName node) ->
  selectorPart fallback node = selectorPart fallback' node.
Proof. intros [tag Htag]. unfold selectorPart. by rewrite Htag. Qed.

Lemma selectorWalk_fallback (fallback fallback' : jsstring) (levels : nat)
    (element : Element) :
  (forall k node, k < levels -> ancestors element !! k = Some node ->
                  is_Some (Dom.tagName node)) ->
  selectorWalk fallback levels element = selectorWalk fallback' levels element.
Proof.
  revert element. induction levels as [|levels IH]; intros element Htags; [done|].
  cbn [selectorWalk].
  assert (is_Some (Dom.tagName element)) as Htag.
  { apply (Htags 0); [lia|]. by rewrite ancestors_unfold. }
  rewrite (selectorPart_fallback fallback fallback' element Htag). f_equal.
  destruct (selectorPart fallback' element).2; [done|].
  destruct (parentElement element) as [p|] eqn:Hp; [|done].
  apply IH. intros k node Hk Hnode. apply (Htags (S k)); [lia|].
  rewrite ancestors_unfold, Hp. done.
Qed.

(** X7. When the element and its ancestors within five levels have tag
    names, the route and the playground build the same snapshot. *)
Theorem route_snapshot_agrees (element : Element) (href : jsstring) :
  (forall k node, k < 5 -> ancestors element !! k = Some node ->
                  is_Some (Dom.tagName node)) ->
  Remix.createElementSnapshot element href = App.createElementSnapshot element href.
Proof.
  intros Htags. unfold Remix.createElementSnapshot, App.createElementSnapshot.
  rewrite playground_selector_walk, route_selector_walk.
  rewrite (selectorWalk_fallback (js "element") [] 5 element Htags).
  f_equal. case_match; [|done]. simpl. by rewrite <- !app_assoc.
Qed.
End Texts.

(** ** The draft controller, continued *)

Section ControllerMore.
Import App.
Variable build : Element -> jsstring -> ElementSnapshot.

Lemma lookup_delete_other {A : Type} (l : list A) (i j : nat) (x : A) :
  l !! j = Some x -> i <> j -> exists k, delete i l !! k = Some x.
Proof.
  intros Hj Hne. destruct (decide (j < i)).
  - exists j. by rewrite list_lookup_delete_lt.
  - exists (j - 1). rewrite list_lookup_delete_ge by lia.
    replace (S (j - 1)) with j by lia. done.
Qed.

Lemma step_pendingBacked (st st' : Controller) (ev : Event) :
  pendingBacked st -> step build st ev = Some st' -> pendingBacked st'.
Proof.
  intros Hback Hstep d Hd Hpending.
  destruct ev; simpl in Hstep.
  - simplify_eq. unfold selectWith, installDraft in *. simpl in *. simplify_eq.
    exists (length (inflight st)), {| currentToken := increment (contextTokenRef st);
                                     callSnapshot := build element href |}.
    split; [|done]. by rewrite lookup_app_r, Nat.sub_diag.
  - destruct (inflight st !! i) as [call|] eqn:Hcall; simpl in Hstep; [|done].
    simplify_eq. unfold onResolved in *. simpl in *.
    case_decide as Htoken; simpl in *.
    + destruct (Hback d Hd Hpending) as (j & c & Hj & Hc & Hsnap).
      destruct (lookup_delete_other _ i j c Hj) as [k Hk]; [congruence|]. eauto.
    + unfold mergeContext in Hd. destruct (draft st) as [p|] eqn:Hp; [|done].
      case_decide as Hsel; [|by simplify_eq].
      simplify_eq. destruct (Hback d Hp Hpending) as (j & c & Hj & Hc & Hsnap).
      destruct (lookup_delete_other _ i j c Hj) as [k Hk]; [|eauto].
      intros ->. simplify_eq. apply Hsel. by rewrite Hsnap.
  - destruct (inflight st !! i) as [call|] eqn:Hcall; simpl in Hstep; [|done].
    simplify_eq. unfold onRejected in *. simpl in *.
    case_decide as Htoken; simpl in *.
    + destruct (Hback d Hd Hpending) as (j & c & Hj & Hc & Hsnap).
      destruct (lookup_delete_other _ i j c Hj) as [k Hk]; [congruence|]. eauto.
    + unfold clearPending in Hd. destruct (draft st) as [p|] eqn:Hp; [|done].
      case_decide as Hsel; [|by simplify_eq].
      simplify_eq. destruct (Hback d Hp Hpending) as (j & c & Hj & Hc & Hsnap).
      destruct (lookup_delete_other _ i j c Hj) as [k Hk]; [|eauto].
      intros ->. simplify_eq. apply Hsel. by rewrite Hsnap.
  - simplify_eq. simpl in *. destruct (draft st) as [p|] eqn:Hp; [|done].
    simpl in Hd. simplify_eq. simpl in *. exact (Hback p Hp Hpending).
  - simplify_eq. simpl in *. destruct (draft st) as [p|] eqn:Hp; [|done].
    simpl in Hd. simplify_eq. simpl in *. exact (Hback p Hp Hpending).
  - by simplify_eq.
Qed.

Lemma run_pendingBacked (events : list Event) (st st' : Controller) :
  pendingBacked st -> run build st events = Some st' -> pendingBacked st'.
Proof.
  revert st. induction events as [|ev events IH]; intros st Hback Hrun;
    simpl in Hrun; [by simplify_eq|].
  destruct (step build st ev) as [st1|] eqn:Hstep; simpl in Hrun; [|done].
  eauto using step_pendingBacked.
Qed.

(** X8. A draft never shows the pending mark without a call in flight to
    take it down: after any events from the initial state, a pending draft
    has a call in flight that carries the current token and the snapshot
    of the draft, and that call, resolving or rejecting, is applied to the
    draft and clears the mark. *)
Theorem pending_mark_backed (events : list Event) (st : Controller) (d : FeedbackDraft) :
  run build initial events = Some st ->
  draft st = Some d ->
  isContextPending d = true ->
  exists i call,
    inflight st !! i = Some call
    /\ currentToken call = contextTokenRef st
    /\ callSnapshot call = snapshot d
    /\ (forall contextText,
          step build st (Resolve i contextText)
          = Some {| contextTokenRef := contextTokenRef st;
                    draft := Some {| snapshot := snapshot d;
                                     context := contextText;
                                     componentName := extractComponentName contextText;
                                     feedbackText := feedbackText d;
                                     isContextPending := false |};
                    inflight := delete i (inflight st) |})
    /\ step build st (Reject i)
       = Some {| contextTokenRef := contextTokenRef st;
                 draft := Some {| snapshot := snapshot d;
                                  context := context d;
                                  componentName := componentName d;
                                  feedbackText := feedbackText d;
                                  isContextPending := false |};
                 inflight := delete i (inflight st) |}.
Proof.
  intros Hrun Hd Hpending.
  assert (pendingBacked initial) as Hinit by (intros ? ?; done).
  destruct (run_pendingBacked _ _ _ Hinit Hrun d Hd Hpending)
    as (i & call & Hcall & Htoken & Hsnap).
  exists i, call. split; [done|]. split; [done|]. split; [done|].
  split; [intros contextText|]; simpl; rewrite Hcall; simpl.
  - unfold onResolved. simpl. rewrite decide_False by (intros H; by apply H).
    unfold setDraft, mergeContext. simpl. rewrite Hd.
    rewrite decide_False by (intros H; apply H; by rewrite Hsnap). done.
  - unfold onRejected. simpl. rewrite decide_False by (intros H; by apply H).
    unfold setDraft, clearPending. simpl. rewrite Hd.
    rewrite decide_False by (intros H; apply H; by rewrite Hsnap). done.
Qed.

(** X9. A discarded draft is never brought back by a late answer: with
    no draft and no further selection, no resolving or rejecting call and
    no edit creates a draft or moves the token. *)
Theorem discarded_draft_stays_discarded (events : list Event) (st st' : Controller) :
  forallb (fun ev => negb (isSelect ev)) events = true ->
  draft st = None ->
  run build st events = Some st' ->
  draft st' = None /\ contextTokenRef st' = contextTokenRef st.
Proof.
  revert st. induction events as [|ev events IH]; intros st Hnone Hd Hrun;
    simpl in *; [by simplify_eq|].
  apply andb_true_iff in Hnone as [Hev Hnone].
  destruct (step build st ev) as [st1|] eqn:Hstep; simpl in Hrun; [|done].
  assert (draft st1 = None /\ contextTokenRef st1 = contextTokenRef st) as [Hd1 Ht1].
  { destruct ev; simpl in Hev, Hstep; try done.
    - destruct (inflight st !! i) as [call|]; simpl in Hstep; [|done]. simplify_eq.
      unfold onResolved. case_decide; simpl; rewrite ?Hd; done.
    - destruct (inflight st !! i) as [call|]; simpl in Hstep; [|done]. simplify_eq.
      unfold onRejected. case_decide; simpl; rewrite ?Hd; done.
    - simplify_eq. simpl. by rewrite Hd.
    - simplify_eq. simpl. by rewrite Hd.
    - by simplify_eq. }
  destruct (IH st1 Hnone Hd1 Hrun) as [? ?]. split; [done|congruence].
Qed.




End ControllerMore.

(** ** The playground page *)

Section PageFacts.
Import Page.

Abbreviation FeedbackRecord := FeedbackService.FeedbackRecord.

Lemma countRecord_countOf (value : FeedbackService.FeedbackStatus)
    (accumulator : StatusCounts) (record : FeedbackRecord) :
  countOf value (countRecord accumulator record)
  = countOf value accumulator
    + (if decide (FeedbackService.status record = value) then 1 else 0).
Proof.
  unfold countRecord.
  destruct (FeedbackService.status record), value; simpl; lia.
Qed.

Lemma foldl_countOf (value : FeedbackService.FeedbackStatus)
    (records : list FeedbackRecord) (accumulator : StatusCounts) :
  countOf value (foldl countRecord accumulator records)
  = countOf value accumulator
    + length (filter (fun record => FeedbackService.status record = value) records).
Proof.
  revert accumulator. induction records as [|record records IH]; intros accumulator.
  - simpl. lia.
  - cbn [foldl]. rewrite IH, countRecord_countOf, filter_cons.
    case_decide; simpl; lia.
Qed.

Lemma status_partition (records : list FeedbackRecord) :
  length (filter (fun record => FeedbackService.status record = FeedbackService.pending) records)
  + length (filter (fun record => FeedbackService.status record = FeedbackService.in_progress) records)
  + length (filter (fun record => FeedbackService.status record = FeedbackService.resolved) records)
  + length (filter (fun record => FeedbackService.status record = FeedbackService.invalid) records)
  = length records.
Proof.
  induction records as [|record records IH]; [done|].
  rewrite !filter_cons. destruct (FeedbackService.status record);
    repeat case_decide; try done; simpl; lia.
Qed.

(** X11. The counters of the status chips agree with the filter: the
    counter of a status is the number of records the filter of that status
    shows, and the four counters add up to the number of all records. *)
Theorem status_counts_match (records : list FeedbackRecord) :
  (forall value,
     countOf value (statusCounts records)
     = length (filteredRecords (only value) records))
  /\ pendingCount (statusCounts records) + inProgressCount (statusCounts records)
     + resolvedCount (statusCounts records) + invalidCount (statusCounts records)
     = length (filteredRecords all records).
Proof.
  assert (forall value,
            countOf value (statusCounts records)
            = length (filteredRecords (only value) records)) as Hcount.
  { intros value. unfold statusCounts. rewrite foldl_countOf. by destruct value. }
  split; [done|].
  pose proof (status_partition records) as Hsum.
  pose proof (Hcount FeedbackService.pending) as H1.
  pose proof (Hcount FeedbackService.in_progress) as H2.
  pose proof (Hcount FeedbackService.resolved) as H3.
  pose proof (Hcount FeedbackService.invalid) as H4.
  simpl in *. lia.
Qed.

(** X12. The summary of a feedback text is never empty, has at most 63
    code units and starts with no white space; a text of white space only
    reads as the placeholder, and a text whose trimmed form has at most 60
    units reads as that form. *)
Theorem summary_bounds (text : jsstring) :
  summarizeFeedback text <> []
  /\ length (summarizeFeedback text) <= 63
  /\ Text.startsClean (summarizeFeedback text) = true
  /\ (Text.blank text = true -> summarizeFeedback text = emptySummary)
  /\ (length (trim text) <= 60 -> Text.blank text = false ->
      summarizeFeedback text = trim text).
Proof.
  unfold summarizeFeedback. pose proof (trim_blank text) as Hblank.
  destruct (trim_clean text) as [Hstart _].
  destruct (trim text) as [|c trimmed] eqn:Htrim; cbn [truthy negb].
  - apply proj1 in Hblank. specialize (Hblank eq_refl).
    split; [done|]. split; [simpl; lia|]. split; [by vm_compute|].
    split; [done|]. intros _ Hnot. congruence.
  - assert (Text.blank text = false) as Hnot.
    { destruct (Text.blank text); [|done]. discriminate (proj2 Hblank eq_refl). }
    unfold slice0. case_decide as Hlen.
    + split; [done|]. split.
      { rewrite length_app, length_take, length_ellipsis. lia. }
      split; [done|]. split; [congruence|]. intros H. simpl in *. lia.
    + split; [done|]. split; [simpl in *; lia|]. split; [done|].
      split; [congruence|done].
Qed.

(** X13. Without a draft, or with a draft whose text is white space
    only, [handleSubmitDraft] calls no service: the storage, the records,
    the draft, the log and the submitting mark stay as they are; without a
    draft nothing changes at all, with one the toast asks for a text. *)
Theorem blank_feedback_not_submitted (timestamp now : Z) (newId : jsstring) (st : State) :
  (forall d, App.draft (controller st) = Some d ->
             Text.blank (App.feedbackText d) = true) ->
  let answer := handleSubmitDraft timestamp newId st in
  answer.2 = None
  /\ window answer.1 = window st
  /\ records answer.1 = records st
  /\ controller answer.1 = controller st
  /\ isSubmitting answer.1 = isSubmitting st
  /\ logs answer.1 = logs st
  /\ submit timestamp newId now st = answer.1
  /\ (App.draft (controller st) = None -> answer.1 = st)
  /\ (App.draft (controller st) <> None -> toast answer.1 = Some toastNeedsText).
Proof.
  intros Hblank. cbv zeta. unfold submit, handleSubmitDraft.
  destruct (App.draft (controller st)) as [d|] eqn:Hd; [|done].
  specialize (Hblank d eq_refl). apply trim_blank in Hblank.
  rewrite Hblank. done.
Qed.


Lemma sort_insert_fmap {A : Type} (key : A -> Z) (f : A -> A) (x : A) (l : list A) :
  key (f x) = key x -> Forall (fun y => key (f y) = key y) l ->
  FeedbackService.sort_insert (fun first second => (key second - key first)%Z) (f x) (f <$> l)
  = f <$> FeedbackService.sort_insert (fun first second => (key second - key first)%Z) x l.
Proof.
  intros Hx. induction 1 as [|y l Hy Hl IH]; [done|].
  cbn [fmap list_fmap FeedbackService.sort_insert]. rewrite Hx, Hy.
  case_decide; [done|]. cbn [fmap list_fmap]. f_equal. apply IH.
Qed.

Lemma sort_fmap {A : Type} (key : A -> Z) (f : A -> A) (l : list A) :
  Forall (fun y => key (f y) = key y) l ->
  FeedbackService.sort (fun first second => (key second - key first)%Z) (f <$> l)
  = f <$> FeedbackService.sort (fun first second => (key second - key first)%Z) l.
Proof.
  induction 1 as [|x l Hx Hl IH]; [done|].
  cbn [fmap list_fmap FeedbackService.sort foldr].
  fold (FeedbackService.sort (fun first second => (key second - key first)%Z) (f <$> l)).
  fold (FeedbackService.sort (fun first second => (key second - key first)%Z) l).
  rewrite IH. apply sort_insert_fmap; [done|].
  by rewrite <- (sort_Permutation _ l).
Qed.

Lemma insert_as_fmap (l : list FeedbackRecord) (index : nat)
    (found updated : FeedbackRecord) :
  NoDup (FeedbackService.id <$> l) ->
  l !! index = Some found ->
  FeedbackService.id updated = FeedbackService.id found ->
  <[index := updated]> l
  = (fun item => if decide (FeedbackService.id item = FeedbackService.id updated)
                 then updated else item) <$> l.
Proof.
  intros Hnodup Hfound Hid. rewrite Hid.
  revert index Hfound. induction l as [|a l IH]; intros index Hfound; [done|].
  rewrite fmap_cons in Hnodup. apply NoDup_cons in Hnodup as [Ha Hnodup].
  destruct index as [|index]; simpl in Hfound.
  - simplify_eq. cbn [fmap list_fmap]. rewrite decide_True by done. simpl. f_equal.
    symmetry. etrans; [|apply list_fmap_id]. apply list_fmap_ext.
    intros i y Hy. rewrite decide_False; [done|]. intros Heq. apply Ha.
    rewrite <- Heq. apply list_elem_of_fmap. exists y. split; [done|].
    by eapply list_elem_of_lookup_2.
  - cbn [fmap list_fmap]. rewrite decide_False.
    + simpl. f_equal. by apply IH.
    + intros Heq. apply Ha. rewrite Heq. apply list_elem_of_fmap. exists found.
      split; [done|]. by eapply list_elem_of_lookup_2.
Qed.

Lemma NoDup_fmap_eq {A B : Type} (f : A -> B) (l : list A) (x y : A) :
  NoDup (f <$> l) -> x ∈ l -> y ∈ l -> f x = f y -> x = y.
Proof.
  intros Hnodup Hx Hy Heq.
  apply list_elem_of_lookup in Hx as [i Hi]. apply list_elem_of_lookup in Hy as [j Hj].
  assert (i = j) as ->.
  { eapply NoDup_lookup; [exact Hnodup| |].
    - rewrite list_lookup_fmap, Hi. done.
    - rewrite list_lookup_fmap, Hj. simpl. by rewrite Heq. }
  congruence.
Qed.

(** X15. A page that shows what the service would list still does so
    after a submission, and shows no id twice, when the new id is fresh and
    the clock is not behind the creation stamps on the page. *)
Theorem submit_keeps_in_step (timestamp now : Z) (newId : jsstring) (st : State)
    (localStorage : gmap jsstring FeedbackService.StoredText) :
  inStep st ->
  window st = Some localStorage ->
  newId ∉ (FeedbackService.id <$> records st) ->
  Forall (fun r => (FeedbackService.createdAt r <= timestamp)%Z) (records st) ->
  inStep (submit timestamp newId now st).
Proof.
  intros [Hrecords Hnodup] Hwindow Hfresh Hclock.
  unfold submit, handleSubmitDraft.
  destruct (App.draft (controller st)) as [d|]; [|done].
  destruct (trim (App.feedbackText d)) as [|c text]; [done|].
  cbn [truthy negb fst snd]. unfold inStep. cbn.
  split; [|by apply NoDup_cons].
  rewrite Hwindow. unfold FeedbackService.list.
  rewrite read_persisted. cbn [FeedbackService.sort foldr].
  fold (FeedbackService.sort (fun first second : FeedbackRecord =>
          (FeedbackService.createdAt second - FeedbackService.createdAt first)%Z)
          (FeedbackService.readFromStorage (Some localStorage))).
  fold (FeedbackService.list (Some localStorage)).
  rewrite <- Hwindow, <- Hrecords.
  symmetry. by apply (sort_insert_head FeedbackService.createdAt).
Qed.

(** X16. A page that shows what the service would list, and no id twice,
    still does so after a status change, whatever record and status the
    change is asked for. *)
Theorem changeStatus_keeps_in_step (record : FeedbackRecord)
    (value : FeedbackService.FeedbackStatus) (now logTime : Z) (st : State) :
  inStep st -> inStep (changeStatus record value now logTime st).
Proof.
  intros [Hrecords Hnodup]. unfold changeStatus, handleStatusChange.
  case_decide as Hsame; [done|]. cbn [fst snd].
  unfold FeedbackService.updateStatus.
  change (window (toggleUpdatingRecord (FeedbackService.id record) true st)) with (window st).
  destruct (list_find _ _) as [[index found]|] eqn:Hfind; cbn [fst snd];
    [|split; [exact Hrecords|exact Hnodup]].
  destruct (window st) as [localStorage|] eqn:Hwindow; [|by cbn in Hfind].
  apply list_find_Some in Hfind as (Hlookup & Hfound & _).
  set (stored := FeedbackService.readFromStorage (Some localStorage)) in *.
  set (updated := FeedbackService.mkRecord _ _ _ _ _).
  set (swap := fun item : FeedbackRecord =>
                 if decide (FeedbackService.id item = FeedbackService.id updated)
                 then updated else item).
  assert (NoDup (FeedbackService.id <$> stored)) as Hstored.
  { rewrite Hrecords in Hnodup. unfold FeedbackService.list in Hnodup.
    fold stored in Hnodup. by rewrite <- (sort_Permutation _ stored) in Hnodup. }
  assert (forall item, FeedbackService.id (swap item) = FeedbackService.id item) as Hid.
  { intros item. unfold swap. by case_decide. }
  split.
  - change (swap <$> records st
            = FeedbackService.list
                (FeedbackService.persist (<[index := updated]> stored) (Some localStorage))).
    unfold FeedbackService.list.
    rewrite read_persisted.
    rewrite (insert_as_fmap stored index found updated Hstored Hlookup eq_refl).
    fold swap. rewrite (sort_fmap FeedbackService.createdAt).
    + by rewrite Hrecords.
    + apply Forall_forall. intros item Hitem. unfold swap. case_decide as Heq; [|done].
      assert (item = found) as ->; [|done].
      eapply (NoDup_fmap_eq FeedbackService.id); try done.
      by eapply list_elem_of_lookup_2.
  - change (NoDup (FeedbackService.id <$> (swap <$> records st))).
    rewrite <- list_fmap_compose.
    erewrite list_fmap_ext; [exact Hnodup|]. intros i item _. apply Hid.
Qed.

(** X17. The marks of a running call are taken down however the call
    settles: the submitting mark is down after a submission settled, and
    the id of the record is out of the updating set after a status change
    settled; a call that failed leaves the records and the log as they
    were. *)
Theorem marks_taken_down (record : FeedbackRecord)
    (value : FeedbackService.FeedbackStatus) (now : Z) (st : State) :
  (forall outcome,
     isSubmitting (submitSettled outcome now st) = false)
  /\ (forall outcome,
       updatingRecordIds (statusChangeSettled record value outcome now st)
       = updatingRecordIds st ∖ {[FeedbackService.id record]})
  /\ updatingRecordIds (changeStatus record value now now st)
     = (if decide (FeedbackService.status record = value) then updatingRecordIds st
        else updatingRecordIds st ∖ {[FeedbackService.id record]})
  /\ records (submitSettled FeedbackService.Throw now st) = records st
  /\ controller (submitSettled FeedbackService.Throw now st) = controller st
  /\ logs (submitSettled FeedbackService.Throw now st) = logs st
  /\ records (statusChangeSettled record value FeedbackService.Throw now st) = records st
  /\ logs (statusChangeSettled record value FeedbackService.Throw now st) = logs st.
Proof.
  split; [by intros [?|]|]. split; [by intros [[?|]|]|].
  split; [|done].
  unfold changeStatus, handleStatusChange. case_decide as Hsame; [done|]. cbn [fst snd].
  clear Hsame.
  destruct (FeedbackService.updateStatus _ _ _ _) as [[updated|] window']; cbn;
    apply set_eq; intros x; rewrite !elem_of_difference, elem_of_union; tauto.
Qed.
End PageFacts.

(** ** The Remix route *)

Section RouteFacts.

Import Route.

Variable toUpperCase : jsstring -> jsstring.

Lemma get_cons (name key : jsstring) (value : FormDataEntryValue) (rest : FormData) :
  get name ((key, value) :: rest)
  = if decide (key = name) then Some value else get name rest.
Proof.
  unfold get. cbn [list_find]. cbn [fst]. case_decide; [done|].
  destruct (list_find _ rest) as [[i found]|]; done.
Qed.

Ltac form_get :=
  repeat (rewrite get_cons;
          first [ rewrite decide_True by reflexivity
                | rewrite decide_False by (vm_compute; congruence) ]).

Lemma values_present (formData : FormData) (key : jsstring) :
  falsy (values formData key) = false ->
  exists entry,
    get key formData = Some entry
    /\ values formData key = Some (trim (toString entry))
    /\ Text.blank (toString entry) = false.
Proof.
  unfold values. destruct (get key formData) as [entry|]; [|done]. simpl.
  intros Hfalsy. exists entry. split; [done|]. split; [done|].
  destruct (Text.blank (toString entry)) eqn:Hblank; [|done].
  apply trim_blank in Hblank. by rewrite Hblank in Hfalsy.
Qed.

(** X18. The action of the route calls [db.feedback.create] only for a
    form with the intent [create] in which each of the six required fields
    holds more than white space; the data it hands over are the trimmed
    fields, the status [PENDING], and a component name that is never the
    empty text. *)
Theorem create_call_validated (formData : FormData) (data : CreateData) :
  action toUpperCase formData = dbCreate data ->
  get (js "_intent") formData = Some (TextEntry (js "create"))
  /\ status data = js "PENDING"
  /\ componentName data <> Some []
  /\ Forall
       (fun asked =>
          exists entry,
            get asked.1 formData = Some entry
            /\ Text.blank (toString entry) = false
            /\ asked.2 data = Some (trim (toString entry)))
       [ (js "pageUrl", pageUrl); (js "selector", selector);
         (js "elementLabel", elementLabel); (js "htmlPreview", htmlPreview);
         (js "context", context); (js "feedbackText", feedbackText) ].
Proof.
  unfold action. case_decide as Hintent.
  - destruct (list_find _ _) as [[i key]|] eqn:Hfind; [done|].
    intros [= <-]. split; [done|]. split; [done|]. split.
    { cbn [componentName]. unfold orNull.
      destruct (toString <$> get (js "componentName") formData) as [[|c name]|]; done. }
    apply list_find_None in Hfind. unfold requiredFields in Hfind.
    repeat match type of Hfind with
           | Forall _ (_ :: _) =>
               let Hpresent := fresh "Hpresent" in
               apply Forall_cons in Hfind as [Hpresent Hfind];
               apply not_true_is_false, values_present in Hpresent
           end.
    repeat match goal with
           | H : exists entry, _ |- _ => destruct H as (? & ? & ? & ?)
           end.
    repeat (apply Forall_cons; split;
            [cbn [fst snd pageUrl selector elementLabel htmlPreview context feedbackText];
             eexists; split; [eassumption|]; split; eassumption|]).
    constructor.
  - case_decide; [|done].
    destruct (toString <$> get (js "id") formData) as [id|]; [|done].
    destruct (_ <$> get (js "status") formData) as [st|]; [|done].
    destruct (_ || _); done.
Qed.

(** X19. When a required field of a [create] form is missing or holds
    white space only, the action of the route answers with the message that
    names the first such field in the order of [requiredFields], and calls
    no database client. *)
Theorem missing_field_refused (formData : FormData) (key : jsstring) :
  get (js "_intent") formData = Some (TextEntry (js "create")) ->
  key ∈ requiredFields ->
  falsy (values formData key) = true ->
  exists before first after,
    requiredFields = before ++ first :: after
    /\ action toUpperCase formData = badRequest (missingField ++ first)
    /\ falsy (values formData first) = true
    /\ Forall (fun earlier => falsy (values formData earlier) = false) before
    /\ (first = key \/ key ∈ after).
Proof.
  intros Hintent Hkey Hfalsy. unfold action. rewrite decide_True by done.
  destruct (list_find _ _) as [[i first]|] eqn:Hfind.
  - apply list_find_Some in Hfind as (Hlookup & Hfirst & Hbefore).
    exists (take i requiredFields), first, (drop (S i) requiredFields).
    split; [symmetry; by apply take_drop_middle|].
    split; [done|]. split; [done|].
    assert (Forall (fun earlier => falsy (values formData earlier) = false)
              (take i requiredFields)) as Hearlier.
    { apply Forall_forall. intros earlier Hin.
      apply list_elem_of_lookup in Hin as [j Hj].
      apply lookup_take_Some in Hj as [Hj Hlt].
      apply not_true_is_false. by eapply Hbefore. }
    split; [done|].
    rewrite <- (take_drop_middle _ _ _ Hlookup) in Hkey.
    apply elem_of_app in Hkey as [Hin|Hin].
    + rewrite Forall_forall in Hearlier. specialize (Hearlier _ Hin). congruence.
    + apply elem_of_cons in Hin as [->|Hin]; auto.
  - apply list_find_None in Hfind. rewrite Forall_forall in Hfind.
    by destruct (Hfind key Hkey).
Qed.

Lemma VALID_STATUS_has_name (text : jsstring) :
  VALID_STATUS_has text = true <-> exists value, text = statusName value.
Proof.
  unfold VALID_STATUS_has. rewrite bool_decide_eq_true, list_elem_of_fmap. split.
  - intros (value & -> & _). eauto.
  - intros [value ->]. exists value. split; [done|]. destruct value; set_solver.
Qed.

(** X20. The action of the route calls [db.feedback.update] only for a
    form with the intent [update-status], a non-empty id and a status that
    reads, in upper case, as one of the four status names. *)
Theorem update_call_validated (formData : FormData) (id status : jsstring) :
  action toUpperCase formData = dbUpdate id status ->
  get (js "_intent") formData = Some (TextEntry (js "update-status"))
  /\ id <> []
  /\ (exists entry, get (js "id") formData = Some entry /\ toString entry = id)
  /\ (exists entry, get (js "status") formData = Some entry
                    /\ toUpperCase (toString entry) = status)
  /\ (exists value, status = statusName value).
Proof.
  unfold action. case_decide as Hcreate.
  { destruct (list_find _ _) as [[i key]|]; done. }
  case_decide as Hupdate; [|done].
  destruct (get (js "id") formData) as [idEntry|]; [|done].
  destruct (get (js "status") formData) as [statusEntry|]; [|done].
  cbn [fmap option_fmap option_map].
  destruct (falsy (Some (toString idEntry))) eqn:Hid; [done|].
  destruct (falsy (Some (toUpperCase (toString statusEntry)))) eqn:Hstatus; [done|].
  destruct (VALID_STATUS_has _) eqn:Hvalid; [|done].
  cbn [orb negb]. intros [= <- <-].
  split; [done|]. split; [by destruct (toString idEntry)|].
  split; [eauto|]. split; [eauto|]. by apply VALID_STATUS_has_name.
Qed.

(** X21. The form the page of the route submits for a draft with a text
    is answered as follows: when the page URL, the selector, the label, the
    HTML preview and the context all hold more than white space, the
    action creates a feedback from the trimmed fields; otherwise it answers
    with the message that names the first of them that does not. *)
Theorem route_submission_answer (d : App.FeedbackDraft) :
  Text.blank (App.feedbackText d) = false ->
  let asked :=
    [ (js "pageUrl", App.pageUrl (App.snapshot d));
      (js "selector", App.selector (App.snapshot d));
      (js "elementLabel", App.elementLabel (App.snapshot d));
      (js "htmlPreview", App.htmlPreview (App.snapshot d));
      (js "context", App.context d) ] in
  handleSubmitDraft (Some d) = inr (submitForm d)
  /\ (Forall (fun field => Text.blank field.2 = false) asked ->
      action toUpperCase (submitForm d)
      = dbCreate
          {| pageUrl := Some (trim (App.pageUrl (App.snapshot d)));
             selector := Some (trim (App.selector (App.snapshot d)));
             elementLabel := Some (trim (App.elementLabel (App.snapshot d)));
             htmlPreview := Some (trim (App.htmlPreview (App.snapshot d)));
             context := Some (trim (App.context d));
             feedbackText := Some (trim (App.feedbackText d));
             componentName := orNull (App.componentName d);
             status := js "PENDING" |})
  /\ (forall before key text after,
        asked = before ++ (key, text) :: after ->
        Forall (fun field => Text.blank field.2 = false) before ->
        Text.blank text = true ->
        action toUpperCase (submitForm d) = badRequest (missingField ++ key)).
Proof.
  intros Htext. cbv zeta.
  assert (trim (App.feedbackText d) <> []) as Hne.
  { intros Hnil. apply trim_blank in Hnil. congruence. }
  assert (forall s, Text.blank s = false -> exists c rest, trim s = c :: rest) as Hsome.
  { intros s Hs. destruct (trim s) as [|c rest] eqn:Htrim; [|eauto].
    apply trim_blank in Htrim. congruence. }
  assert (forall s, Text.blank s = true -> trim s = []) as Hnone.
  { intros s Hs. by apply trim_blank. }
  split.
  { unfold handleSubmitDraft. destruct (trim (App.feedbackText d)); done. }
  assert (get (js "_intent") (submitForm d) = Some (TextEntry (js "create"))) as Hintent.
  { unfold submitForm, append. cbn [app]. by form_get. }
  assert (forall key, values (submitForm d) key
            = (fun entry => trim (toString entry)) <$> get key (submitForm d)) as Hvalues by done.
  assert (values (submitForm d) (js "pageUrl") = Some (trim (App.pageUrl (App.snapshot d))))
    as HpageUrl.
  { rewrite Hvalues. unfold submitForm, append. cbn [app]. by form_get. }
  assert (values (submitForm d) (js "selector") = Some (trim (App.selector (App.snapshot d))))
    as Hselector.
  { rewrite Hvalues. unfold submitForm, append. cbn [app]. by form_get. }
  assert (values (submitForm d) (js "elementLabel")
          = Some (trim (App.elementLabel (App.snapshot d)))) as HelementLabel.
  { rewrite Hvalues. unfold submitForm, append. cbn [app]. by form_get. }
  assert (values (submitForm d) (js "htmlPreview")
          = Some (trim (App.htmlPreview (App.snapshot d)))) as HhtmlPreview.
  { rewrite Hvalues. unfold submitForm, append. cbn [app]. by form_get. }
  assert (values (submitForm d) (js "context") = Some (trim (App.context d))) as Hcontext.
  { rewrite Hvalues. unfold submitForm, append. cbn [app]. by form_get. }
  assert (values (submitForm d) (js "feedbackText")
          = Some (trim (trim (App.feedbackText d)))) as HfeedbackText.
  { rewrite Hvalues. unfold submitForm, append. cbn [app]. by form_get. }
  rewrite trim_idempotent in HfeedbackText.
  assert (get (js "componentName") (submitForm d)
          = Some (TextEntry (default [] (App.componentName d)))) as Hname.
  { unfold submitForm, append. cbn [app]. by form_get. }
  unfold action. rewrite decide_True by done.
  unfold requiredFields. cbn [list_find].
  rewrite HpageUrl, Hselector, HelementLabel, HhtmlPreview, Hcontext, HfeedbackText, Hname.
  split.
  - intros Hall.
    repeat match type of Hall with
           | Forall _ (_ :: _) =>
               let Hfield := fresh "Hfield" in
               apply Forall_cons in Hall as [Hfield Hall]; apply Hsome in Hfield
           end.
    cbn [snd] in *.
    repeat match goal with H : exists c rest, trim _ = _ |- _ =>
      destruct H as (? & ? & H); rewrite H end.
    destruct (trim (App.feedbackText d)) as [|c rest]; [done|].
    cbn. f_equal. f_equal. unfold orNull.
    by destruct (App.componentName d) as [[|? ?]|].
  - intros before key text after Hasked Hbefore Hblank.
    apply Hnone in Hblank.
    destruct before as [|b1 [|b2 [|b3 [|b4 [|b5 before]]]]];
      simplify_eq/=;
      repeat match type of Hbefore with
             | Forall _ (_ :: _) =>
                 let Hfield := fresh "Hfield" in
                 apply Forall_cons in Hbefore as [Hfield Hbefore]; apply Hsome in Hfield
             end;
      cbn [snd] in *;
      repeat match goal with H : exists c rest, trim _ = _ |- _ =>
        destruct H as (? & ? & H); rewrite H end;
      try rewrite Hblank; try done.
    destruct before; done.
Qed.

(** X22. The form the page of the route submits for a status change is
    answered by the update of that id to that status, unless the id is
    empty, in which case the action refuses the request; status names are
    their own upper case. *)
Theorem route_status_change_answer (id : jsstring) (value : FeedbackStatus) :
  toUpperCase (statusName value) = statusName value ->
  action toUpperCase (handleStatusChange id value)
  = if decide (id = []) then badRequest invalidStatus
    else dbUpdate id (statusName value).
Proof.
  intros Hupper. unfold action, handleStatusChange, append. cbn [app]. form_get.
  cbn [fmap option_fmap option_map toString].
  rewrite Hupper.
  assert (VALID_STATUS_has (statusName value) = true) as ->.
  { apply VALID_STATUS_has_name. eauto. }
  destruct id as [|c id]; [done|]. rewrite decide_False by done.
  by destruct value.
Qed.

(** X23. The loader of the route either filters by no status and
    reports [ALL], which it does exactly when the parameter is absent or
    does not read, in upper case, as a status name; or it filters by the
    status the parameter reads as and reports that status. *)
Theorem loader_answer (statusParam : option jsstring) :
  let answer := loader toUpperCase statusParam in
  (answer.1 = None /\ answer.2 = js "ALL"
   /\ forall text value, statusParam = Some text -> toUpperCase text <> statusName value)
  \/ (exists text value,
        statusParam = Some text
        /\ toUpperCase text = statusName value
        /\ answer.1 = Some (statusName value)
        /\ answer.2 = statusName value).
Proof.
  cbv zeta. unfold loader. destruct statusParam as [text|]; cbn [fmap option_fmap option_map].
  - destruct (VALID_STATUS_has (toUpperCase text)) eqn:Hvalid.
    + apply VALID_STATUS_has_name in Hvalid as [value Hvalue]. right.
      exists text, value. rewrite Hvalue. by destruct value.
    + left. rewrite andb_false_r. split; [done|]. split; [done|].
      intros text' value [= <-] Hname.
      assert (VALID_STATUS_has (toUpperCase text) = true); [|congruence].
      apply VALID_STATUS_has_name. eauto.
  - left. done.
Qed.

Lemma route_foldl_counts (records : list Feedback) (acc : StatusCounts)
    (value : FeedbackStatus) :
  countOf value (foldl countRecord acc records)
  = countOf value acc + length (filter (fun record => rowStatus record = value) records)
  /\ countALL (foldl countRecord acc records) = countALL acc + length records.
Proof.
  revert acc. induction records as [|record records IH]; intros acc.
  - simpl. lia.
  - cbn [foldl]. destruct (IH (countRecord acc record)) as [-> ->].
    rewrite filter_cons. case_decide as Hsame; unfold countRecord;
      destruct (rowStatus record), value; try done; simpl; lia.
Qed.

(** X24. The counters of the route agree with its filter: the counter
    of [ALL] is the number of records, the counter of a status is the
    number of records the filter of that status shows, and the four add up
    to the counter of [ALL]. *)
Theorem route_counts_match (records : list Feedback) :
  countALL (statusCounts records) = length (filteredRecords None records)
  /\ (forall value, countOf value (statusCounts records)
                    = length (filteredRecords (Some value) records))
  /\ countALL (statusCounts records)
     = countPENDING (statusCounts records) + countIN_PROGRESS (statusCounts records)
       + countRESOLVED (statusCounts records) + countINVALID (statusCounts records).
Proof.
  assert (forall (acc : StatusCounts),
            countALL acc = countPENDING acc + countIN_PROGRESS acc
                           + countRESOLVED acc + countINVALID acc ->
            countALL (foldl countRecord acc records)
            = countPENDING (foldl countRecord acc records)
              + countIN_PROGRESS (foldl countRecord acc records)
              + countRESOLVED (foldl countRecord acc records)
              + countINVALID (foldl countRecord acc records)) as Hsum.
  { induction records as [|record records IH]; intros acc Hacc; [done|].
    cbn [foldl]. apply IH. unfold countRecord. destruct (rowStatus record); simpl; lia. }
  unfold statusCounts. split; [|split].
  - by destruct (route_foldl_counts records (mkCounts 0 0 0 0 0) PENDING) as [_ ->].
  - intros value.
    destruct (route_foldl_counts records (mkCounts 0 0 0 0 0) value) as [-> _].
    by destruct value.
  - by apply Hsum.
Qed.
End RouteFacts.

(** ** The database client and the server entry *)

Section DbServerFacts.

Import DbServer.

Lemma reload_production (times : nat) (process : Process) :
  reload (Some (js "production")) times process
  = (seq (created process) times,
     {| created := created process + times; remix_prisma := remix_prisma process |}).
Proof.
  revert process. induction times as [|times IH]; intros process.
  - destruct process. simpl. by rewrite Nat.add_0_r.
  - cbn [reload]. unfold evaluate at 1 2. rewrite decide_True by done.
    cbn [newPrismaClient fst snd]. rewrite !IH. simpl. by rewrite Nat.add_succ_r.
Qed.

Lemma reload_kept (NODE_ENV : option jsstring) (times : nat) (process : Process)
    (client : PrismaClient) :
  NODE_ENV <> Some (js "production") ->
  remix_prisma process = Some client ->
  reload NODE_ENV times process = (replicate times client, process).
Proof.
  intros Henv Hclient. induction times as [|times IH]; [done|].
  cbn [reload]. unfold evaluate. rewrite decide_False by done. rewrite Hclient.
  cbn [fst snd]. by rewrite !IH.
Qed.

(** X25. Outside production the module hands out one database client,
    however often it is evaluated: every evaluation exports the client
    kept in [global.__remix_prisma__], at most one client is ever created,
    and none when one is kept already. In production every evaluation
    creates a client of its own and leaves the global alone. *)
Theorem db_client_reused (NODE_ENV : option jsstring) (times : nat) (process : Process) :
  let loaded := reload NODE_ENV times process in
  length loaded.1 = times
  /\ if decide (NODE_ENV = Some (js "production"))
     then NoDup loaded.1
          /\ created loaded.2 = created process + times
          /\ remix_prisma loaded.2 = remix_prisma process
     else (forall earlier later, earlier ∈ loaded.1 -> later ∈ loaded.1 -> earlier = later)
          /\ created loaded.2 <= created process + 1
          /\ (forall client, client ∈ loaded.1 -> remix_prisma loaded.2 = Some client)
          /\ (forall client, remix_prisma process = Some client ->
                loaded = (replicate times client, process)).
Proof.
  cbv zeta. case_decide as Henv.
  - subst NODE_ENV. rewrite reload_production. cbn [fst snd].
    split; [apply length_seq|]. split; [apply NoDup_seq|]. done.
  - assert (forall n client p, remix_prisma p = Some client ->
              reload NODE_ENV n p = (replicate n client, p)) as Hkept.
    { intros n client p Hp. by apply reload_kept. }
    assert (forall n (client a b : PrismaClient),
              a ∈ replicate n client -> b ∈ replicate n client -> a = b) as Hsame.
    { intros n client a b Ha Hb. apply elem_of_replicate in Ha as [-> _].
      by apply elem_of_replicate in Hb as [-> _]. }
    assert (forall n (client c : PrismaClient), c ∈ replicate n client -> c = client)
      as Hmember.
    { intros n client c Hc. by apply elem_of_replicate in Hc as [-> _]. }
    destruct (remix_prisma process) as [client|] eqn:Hglobal.
    + rewrite (Hkept times client process Hglobal). cbn [fst snd].
      split; [apply length_replicate|]. split; [apply Hsame|].
      split; [lia|].
      split; [intros c Hc; apply Hmember in Hc; by subst|].
      intros c [= <-]. done.
    + destruct times as [|times].
      { simpl. split; [done|]. split; [intros a b Ha; by apply elem_of_nil in Ha|].
        split; [lia|]. split; [intros c Hc; by apply elem_of_nil in Hc|]. done. }
      assert (evaluate NODE_ENV process
              = (created process,
                 {| created := S (created process);
                    remix_prisma := Some (created process) |})) as Hfirst.
      { unfold evaluate. rewrite decide_False by done. by rewrite Hglobal. }
      cbn [reload]. rewrite Hfirst. cbn [fst snd].
      rewrite (Hkept times (created process)
                 {| created := S (created process);
                    remix_prisma := Some (created process) |} eq_refl).
      cbn [fst snd created remix_prisma].
      change (created process :: replicate times (created process))
        with (replicate (S times) (created process)).
      split; [apply length_replicate|]. split; [apply Hsame|].
      split; [lia|].
      split; [intros c Hc; apply Hmember in Hc; by subst|]. done.
Qed.
End DbServerFacts.

Section EntryServerFacts.

Import EntryServer.

Variable Error : Type.
Variable newResponse : Z -> Headers -> option Response.
Variable isbot : option jsstring -> bool.

Abbreviation handler userAgent code :=
  (if isbot userAgent then handleBotRequest Error newResponse code
   else handleBrowserRequest Error newResponse code).

Lemma handleRequest_settled (userAgent : option jsstring) (code : Z)
    (callbacks : list (Callback Error)) (rendering : Rendering Error) :
  promise rendering <> pending ->
  promise (foldl (handler userAgent code) rendering callbacks) = promise rendering.
Proof.
  revert rendering. induction callbacks as [|callback callbacks IH];
    intros rendering Hsettled; [done|].
  assert (promise (handler userAgent code rendering callback) = promise rendering)
    as Hstep.
  { destruct (isbot userAgent), callback; simpl; try done;
      try (destruct (newResponse _ _); [|done]);
      destruct (promise rendering); done. }
  cbn [foldl]. rewrite IH; [done|]. by rewrite Hstep.
Qed.

Lemma handleRequest_unsettled (userAgent : option jsstring) (code : Z)
    (callbacks : list (Callback Error)) (rendering : Rendering Error) :
  forallb (fun callback => negb (settles isbot userAgent callback)) callbacks = true ->
  let after := foldl (handler userAgent code) rendering callbacks in
  promise after = promise rendering
  /\ responseHeaders after = responseHeaders rendering
  /\ didError after = didError rendering || existsb isError callbacks.
Proof.
  revert rendering. induction callbacks as [|callback callbacks IH];
    intros rendering Hnone; cbv zeta.
  - simpl. by rewrite orb_false_r.
  - cbn [forallb] in Hnone. apply andb_true_iff in Hnone as [Hcallback Hnone].
    cbn [foldl].
    set (next := handler userAgent code rendering callback).
    destruct (IH next Hnone) as (-> & -> & ->). cbn [existsb]. subst next.
    destruct (isbot userAgent) eqn:Hbot, callback; simpl in Hcallback;
      rewrite ?Hbot in Hcallback; try done; simpl;
      rewrite ?orb_true_r, ?orb_false_r; try done.
    all: by destruct (didError rendering).
Qed.

Lemma forallb_not_settles (userAgent : option jsstring)
    (callbacks : list (Callback Error)) :
  Forall (fun callback => settles isbot userAgent callback <> true) callbacks ->
  forallb (fun callback => negb (settles isbot userAgent callback)) callbacks = true.
Proof.
  induction 1 as [|callback callbacks Hcallback Hrest IH]; [done|].
  cbn [forallb]. rewrite IH, andb_true_r.
  by destruct (settles isbot userAgent callback).
Qed.

Lemma handleRequest_fold (userAgent : option jsstring) (code : Z) (handed : Headers)
    (callbacks : list (Callback Error)) :
  handleRequest newResponse isbot userAgent code handed callbacks
  = foldl (handler userAgent code) (start Error handed) callbacks.
Proof. unfold handleRequest. by destruct (isbot userAgent). Qed.

Lemma handleRequest_didError (userAgent : option jsstring) (code : Z)
    (callbacks : list (Callback Error)) (rendering : Rendering Error) :
  didError (foldl (handler userAgent code) rendering callbacks)
  = didError rendering || existsb isError callbacks.
Proof.
  revert rendering. induction callbacks as [|callback callbacks IH]; intros rendering.
  - simpl. by rewrite orb_false_r.
  - cbn [foldl existsb]. rewrite IH.
    destruct (isbot userAgent), callback; simpl;
      rewrite ?orb_true_r, ?orb_false_r; try done.
    all: by destruct (didError rendering).
Qed.

Lemma handleRequest_console (userAgent : option jsstring) (code : Z)
    (callbacks : list (Callback Error)) (rendering : Rendering Error) :
  console (foldl (handler userAgent code) rendering callbacks)
  = console rendering ++ omap reported callbacks.
Proof.
  revert rendering. induction callbacks as [|callback callbacks IH]; intros rendering.
  - simpl. by rewrite app_nil_r.
  - cbn [foldl]. rewrite IH.
    destruct (isbot userAgent), callback; simpl; try done; by rewrite <- app_assoc.
Qed.

Lemma handler_settles (userAgent : option jsstring) (code : Z)
    (rendering : Rendering Error) (callback : Callback Error) :
  settles isbot userAgent callback = true ->
  promise rendering = pending ->
  let next := handler userAgent code rendering callback in
  (exists error, callback = onShellError error /\ promise next = rejected error)
  \/ (answers isbot userAgent callback = true
      /\ responseHeaders next
         = Headers_set (js "Content-Type") (js "text/html") (responseHeaders rendering)
      /\ promise next
         = match
             newResponse (if didError rendering then 500 else code)
               (Headers_set (js "Content-Type") (js "text/html")
                  (responseHeaders rendering))
           with
           | Some response => resolved response
           | None => pending
           end).
Proof.
  intros Hsettles Hpending. cbv zeta.
  destruct (isbot userAgent) eqn:Hbot, callback; simpl in Hsettles |- *;
    rewrite ?Hbot in Hsettles |- *; simpl in Hsettles |- *; try done;
    rewrite ?Hpending;
    first [ left; eexists; split; reflexivity
          | right; split; [done|]; split; [done|];
            destruct (newResponse _ _); done ].
Qed.

(** X26. The promise of the server entry is decided at the first callback
    that can settle it. A shell error rejects it. The ready callback of
    the user agent ([onAllReady] for a bot, [onShellReady] otherwise) sets
    the content type [text/html] and asks the platform for a response with
    these headers and with status 500 when an error was reported before,
    the given status otherwise: it resolves the promise with that
    response, and leaves it pending when the constructor throws. With no
    such callback the promise stays pending. Once the promise is settled
    no later callback changes it, [didError] tells whether an error was
    reported, and the console holds the reported errors, all of them and
    in their order. *)
Theorem response_status (userAgent : option jsstring) (code : Z) (handed : Headers)
    (callbacks : list (Callback Error)) :
  let handle := handleRequest newResponse isbot userAgent code handed in
  let sent := <[js "content-type" := js "text/html"]> handed in
  match list_find (fun callback => settles isbot userAgent callback = true) callbacks with
  | None => promise (handle callbacks) = pending
  | Some (_, onShellError error) => promise (handle callbacks) = rejected error
  | Some (index, _) =>
      match
        newResponse (if existsb isError (take index callbacks) then 500 else code) sent
      with
      | Some response => promise (handle callbacks) = resolved response
      | None =>
          promise (handle (take (S index) callbacks)) = pending
          /\ responseHeaders (handle (take (S index) callbacks)) = sent
      end
  end
  /\ didError (handle callbacks) = existsb isError callbacks
  /\ console (handle callbacks) = omap reported callbacks.
Proof.
  cbv zeta. split; [|split].
  - rewrite !handleRequest_fold.
    destruct (list_find _ callbacks) as [[index callback]|] eqn:Hfind.
    + apply list_find_Some in Hfind as (Hlookup & Hsettles & Hearlier).
      assert (forallb (fun earlier => negb (settles isbot userAgent earlier))
                (take index callbacks) = true) as Hbefore.
      { apply forallb_not_settles, Forall_forall. intros earlier Hin.
        apply list_elem_of_lookup in Hin as [j Hj].
        apply lookup_take_Some in Hj as [Hj Hlt]. by eapply Hearlier. }
      destruct (handleRequest_unsettled userAgent code (take index callbacks)
                  (start Error handed) Hbefore) as (Hpromise & Hheaders & Herror).
      set (before := foldl (handler userAgent code) (start Error handed)
                       (take index callbacks)) in *.
      simpl in Hpromise, Hheaders, Herror.
      assert (foldl (handler userAgent code) (start Error handed)
                (take (S index) callbacks)
              = handler userAgent code before callback) as Hnext.
      { rewrite (take_S_r _ _ _ Hlookup), foldl_app. done. }
      assert (foldl (handler userAgent code) (start Error handed) callbacks
              = foldl (handler userAgent code) (handler userAgent code before callback)
                  (drop (S index) callbacks)) as Hall.
      { rewrite <- (take_drop_middle _ _ _ Hlookup) at 1. by rewrite foldl_app. }
      destruct (handler_settles userAgent code before callback Hsettles Hpromise)
        as [(error & -> & Hrejected)|(Hready & Hsent & Hanswer)].
      * rewrite Hall, handleRequest_settled; [done|]. by rewrite Hrejected.
      * rewrite Hheaders in Hsent. rewrite Hheaders, Herror in Hanswer.
        change (Headers_set (js "Content-Type") (js "text/html") handed)
          with (<[js "content-type" := js "text/html"]> handed) in Hsent, Hanswer.
        assert (match callback with
                | onShellError _ => False
                | _ => True
                end) as Hshape by (by destruct callback).
        destruct (newResponse _ _) as [response|] eqn:Hmade.
        -- assert (promise (foldl (handler userAgent code) (start Error handed) callbacks)
                   = resolved response) as Hresolved.
           { rewrite Hall, handleRequest_settled; [done|]. by rewrite Hanswer. }
           by destruct callback.
        -- destruct callback; try done; rewrite !handleRequest_fold, Hnext; done.
    + apply list_find_None in Hfind. apply forallb_not_settles in Hfind.
      by destruct (handleRequest_unsettled userAgent code callbacks
                     (start Error handed) Hfind) as (-> & _).
  - rewrite handleRequest_fold. apply handleRequest_didError.
  - rewrite handleRequest_fold. apply handleRequest_console.
Qed.
End EntryServerFacts.

(** ** The properties above on the samples *)

(** The stored sample record is set to invalid. *)
Lemma updateStatus_found_witness :
  js "fbk_1" ∈ (FeedbackService.id <$> FeedbackService.readFromStorage (Some Samples.storage))
  /\ FeedbackService.id
       <$> FeedbackService.readFromStorage
             (FeedbackService.updateStatus 1700000400000 (js "fbk_1")
                FeedbackService.invalid (Some Samples.storage)).2
     = FeedbackService.id <$> FeedbackService.readFromStorage (Some Samples.storage).
Proof.
  assert (js "fbk_1" ∈ (FeedbackService.id
            <$> FeedbackService.readFromStorage (Some Samples.storage))) as Hstored.
  { refine (bool_decide_unpack _ _). vm_compute. exact I. }
  split; [exact Hstored|].
  destruct (updateStatus_found 1700000400000 (js "fbk_1") FeedbackService.invalid
              Samples.storage Hstored)
    as (index & found & _ & _ & _ & _ & _ & _ & _ & Hids & _).
  exact Hids.
Defined.

(** A record created after the stored one is listed in front of it. *)
Lemma create_shows_first_witness :
  Forall (fun r => (FeedbackService.createdAt r <= 1700000400000)%Z)
    (FeedbackService.readFromStorage (Some Samples.storage))
  /\ FeedbackService.list
       (FeedbackService.create 1700000400000 (js "fbk_2") Samples.sampleInput
          (Some Samples.storage)).2
     = (FeedbackService.create 1700000400000 (js "fbk_2") Samples.sampleInput
          (Some Samples.storage)).1
       :: FeedbackService.list (Some Samples.storage).
Proof.
  assert (Forall (fun r => (FeedbackService.createdAt r <= 1700000400000)%Z)
            (FeedbackService.readFromStorage (Some Samples.storage))) as Hclock.
  { refine (bool_decide_unpack _ _). vm_compute. exact I. }
  split; [exact Hclock|].
  exact (proj1 (create_shows_first 1700000400000 (js "fbk_2") Samples.sampleInput
                  Samples.storage Hclock)).
Defined.

(** The button, the card and the body all have tag names. *)
Lemma route_snapshot_agrees_witness :
  (forall k node, k < 5 -> ancestors Samples.saveButton !! k = Some node ->
                  is_Some (Dom.tagName node))
  /\ Remix.createElementSnapshot Samples.saveButton Samples.href
     = App.createElementSnapshot Samples.saveButton Samples.href.
Proof.
  assert (forall k node, k < 5 -> ancestors Samples.saveButton !! k = Some node ->
                         is_Some (Dom.tagName node)) as Htags.
  { intros k node _ Hnode.
    destruct k as [|[|[|k]]]; vm_compute in Hnode; [| | |destruct k; discriminate Hnode];
      injection Hnode as <-; eexists; reflexivity. }
  split; [exact Htags|].
  exact (route_snapshot_agrees Samples.saveButton Samples.href Htags).
Defined.

(** The button was selected and its call is in flight. *)
Lemma pending_mark_backed_witness :
  App.run App.createElementSnapshot App.initial
    [App.Select Samples.saveButton Samples.href]
  = Some Samples.saveSelected
  /\ App.draft Samples.saveSelected
     = Some {| App.snapshot := Samples.saveSnapshot;
               App.context := App.htmlPreview Samples.saveSnapshot;
               App.componentName := None;
               App.feedbackText := [];
               App.isContextPending := true |}
  /\ exists i call,
       App.inflight Samples.saveSelected !! i = Some call
       /\ App.currentToken call = App.contextTokenRef Samples.saveSelected
       /\ App.callSnapshot call = Samples.saveSnapshot.
Proof.
  split; [vm_compute; reflexivity|]. split; [vm_compute; reflexivity|].
  destruct (pending_mark_backed App.createElementSnapshot
              [App.Select Samples.saveButton Samples.href] Samples.saveSelected
              {| App.snapshot := Samples.saveSnapshot;
                 App.context := App.htmlPreview Samples.saveSnapshot;
                 App.componentName := None;
                 App.feedbackText := [];
                 App.isContextPending := true |}
              ltac:(vm_compute; reflexivity) ltac:(vm_compute; reflexivity)
              ltac:(reflexivity))
    as (i & call & Hcall & Htoken & Hsnapshot & _).
  exists i, call. split; [exact Hcall|]. split; [exact Htoken|]. exact Hsnapshot.
Defined.

(** The call of a discarded draft resolves and the text box fires. *)
Lemma discarded_draft_stays_discarded_witness :
  forallb (fun ev => negb (App.isSelect ev))
    [App.Resolve 0 Samples.saveText; App.Edit (js "late")] = true
  /\ App.draft Samples.saveDiscarded = None
  /\ App.run App.createElementSnapshot Samples.saveDiscarded
       [App.Resolve 0 Samples.saveText; App.Edit (js "late")]
     = Some Samples.saveDiscardedEnd
  /\ App.draft Samples.saveDiscardedEnd = None
  /\ App.contextTokenRef Samples.saveDiscardedEnd
     = App.contextTokenRef Samples.saveDiscarded.
Proof.
  split; [reflexivity|]. split; [vm_compute; reflexivity|].
  split; [vm_compute; reflexivity|].
  exact (discarded_draft_stays_discarded App.createElementSnapshot
           [App.Resolve 0 Samples.saveText; App.Edit (js "late")]
           Samples.saveDiscarded Samples.saveDiscardedEnd
           ltac:(reflexivity) ltac:(vm_compute; reflexivity)
           ltac:(vm_compute; reflexivity)).
Defined.


(** Nothing was typed for the selected button. *)
Lemma blank_feedback_not_submitted_witness :
  (forall d, App.draft (Page.controller Samples.pageSelected) = Some d ->
             Text.blank (App.feedbackText d) = true)
  /\ (Page.handleSubmitDraft 1700000400000 (js "fbk_2") Samples.pageSelected).2 = None
  /\ Page.window (Page.handleSubmitDraft 1700000400000 (js "fbk_2") Samples.pageSelected).1
     = Some Samples.storage.
Proof.
  assert (forall d, App.draft (Page.controller Samples.pageSelected) = Some d ->
                    Text.blank (App.feedbackText d) = true) as Hblank.
  { intros d Hd. vm_compute in Hd. injection Hd as <-. reflexivity. }
  split; [exact Hblank|].
  destruct (blank_feedback_not_submitted 1700000400000 1700000400300 (js "fbk_2")
              Samples.pageSelected Hblank) as (Hnone & Hwindow & _).
  split; [exact Hnone|]. exact Hwindow.
Defined.


(** The page over the sample storage stays in step through a submission. *)
Lemma submit_keeps_in_step_witness :
  Page.inStep Samples.pageTyped
  /\ Page.window Samples.pageTyped = Some Samples.storage
  /\ (js "fbk_2" ∉ (FeedbackService.id <$> Page.records Samples.pageTyped))
  /\ Forall (fun r => (FeedbackService.createdAt r <= 1700000400000)%Z)
       (Page.records Samples.pageTyped)
  /\ Page.inStep (Page.submit 1700000400000 (js "fbk_2") 1700000400300 Samples.pageTyped).
Proof.
  assert (Page.inStep Samples.pageTyped) as Hstep.
  { split; [vm_compute; reflexivity|].
    refine (bool_decide_unpack _ _). vm_compute. exact I. }
  assert (js "fbk_2" ∉ (FeedbackService.id <$> Page.records Samples.pageTyped)) as Hfresh.
  { refine (bool_decide_unpack _ _). vm_compute. exact I. }
  assert (Forall (fun r => (FeedbackService.createdAt r <= 1700000400000)%Z)
            (Page.records Samples.pageTyped)) as Hclock.
  { refine (bool_decide_unpack _ _). vm_compute. exact I. }
  split; [exact Hstep|]. split; [reflexivity|]. split; [exact Hfresh|].
  split; [exact Hclock|].
  exact (submit_keeps_in_step 1700000400000 1700000400300 (js "fbk_2")
           Samples.pageTyped Samples.storage Hstep eq_refl Hfresh Hclock).
Defined.

(** The page over the sample storage stays in step through a status change. *)
Lemma changeStatus_keeps_in_step_witness :
  Page.inStep Samples.pageTyped
  /\ Page.inStep
       (Page.changeStatus Samples.storedRecord FeedbackService.invalid
          1700000400000 1700000400300 Samples.pageTyped).
Proof.
  assert (Page.inStep Samples.pageTyped) as Hstep.
  { split; [vm_compute; reflexivity|].
    refine (bool_decide_unpack _ _). vm_compute. exact I. }
  split; [exact Hstep|].
  exact (changeStatus_keeps_in_step Samples.storedRecord FeedbackService.invalid
           1700000400000 1700000400300 Samples.pageTyped Hstep).
Defined.

(** The form of the typed draft reaches the database client. *)
Lemma create_call_validated_witness :
  Route.action Samples.asciiUpper (Route.submitForm Samples.typedDraft)
  = Route.dbCreate Samples.sampleData
  /\ Route.get (js "_intent") (Route.submitForm Samples.typedDraft)
     = Some (Route.TextEntry (js "create"))
  /\ Route.status Samples.sampleData = js "PENDING".
Proof.
  assert (Route.action Samples.asciiUpper (Route.submitForm Samples.typedDraft)
          = Route.dbCreate Samples.sampleData) as Hcall.
  { vm_compute. reflexivity. }
  split; [exact Hcall|].
  destruct (create_call_validated Samples.asciiUpper
              (Route.submitForm Samples.typedDraft) Samples.sampleData Hcall)
    as (Hintent & Hstatus & _).
  split; [exact Hintent|]. exact Hstatus.
Defined.

(** The form of a draft whose context is white space is refused. *)
Lemma missing_field_refused_witness :
  Route.get (js "_intent") (Route.submitForm Samples.blankContextDraft)
  = Some (Route.TextEntry (js "create"))
  /\ js "context" ∈ Route.requiredFields
  /\ Route.falsy (Route.values (Route.submitForm Samples.blankContextDraft) (js "context"))
     = true
  /\ exists before first after,
       Route.requiredFields = before ++ first :: after
       /\ Route.action Samples.asciiUpper (Route.submitForm Samples.blankContextDraft)
          = Route.badRequest (Route.missingField ++ first).
Proof.
  assert (js "context" ∈ Route.requiredFields) as Hkey.
  { refine (bool_decide_unpack _ _). vm_compute. exact I. }
  split; [vm_compute; reflexivity|]. split; [exact Hkey|].
  split; [vm_compute; reflexivity|].
  destruct (missing_field_refused Samples.asciiUpper
              (Route.submitForm Samples.blankContextDraft) (js "context")
              ltac:(vm_compute; reflexivity) Hkey ltac:(vm_compute; reflexivity))
    as (before & first & after & Hsplit & Haction & _).
  exists before, first, after. split; [exact Hsplit|]. exact Haction.
Defined.

(** The form of a status change reaches the database client. *)
Lemma update_call_validated_witness :
  Route.action Samples.asciiUpper (Route.handleStatusChange (js "fbk_1") Route.RESOLVED)
  = Route.dbUpdate (js "fbk_1") (js "RESOLVED")
  /\ Route.get (js "_intent") (Route.handleStatusChange (js "fbk_1") Route.RESOLVED)
     = Some (Route.TextEntry (js "update-status"))
  /\ exists value, js "RESOLVED" = Route.statusName value.
Proof.
  assert (Route.action Samples.asciiUpper
            (Route.handleStatusChange (js "fbk_1") Route.RESOLVED)
          = Route.dbUpdate (js "fbk_1") (js "RESOLVED")) as Hcall.
  { vm_compute. reflexivity. }
  split; [exact Hcall|].
  destruct (update_call_validated Samples.asciiUpper
              (Route.handleStatusChange (js "fbk_1") Route.RESOLVED)
              (js "fbk_1") (js "RESOLVED") Hcall)
    as (Hintent & _ & _ & _ & Hvalue).
  split; [exact Hintent|]. exact Hvalue.
Defined.

(** The typed draft is submitted. *)
Lemma route_submission_answer_witness :
  Text.blank (App.feedbackText Samples.typedDraft) = false
  /\ Route.handleSubmitDraft (Some Samples.typedDraft)
     = inr (Route.submitForm Samples.typedDraft).
Proof.
  split; [reflexivity|].
  exact (proj1 (route_submission_answer Samples.asciiUpper Samples.typedDraft eq_refl)).
Defined.

(** The stored sample record is set to resolved through the route. *)
Lemma route_status_change_answer_witness :
  Samples.asciiUpper (Route.statusName Route.RESOLVED) = Route.statusName Route.RESOLVED
  /\ Route.action Samples.asciiUpper (Route.handleStatusChange (js "fbk_1") Route.RESOLVED)
     = Route.dbUpdate (js "fbk_1") (Route.statusName Route.RESOLVED).
Proof.
  split; [vm_compute; reflexivity|].
  exact (route_status_change_answer Samples.asciiUpper (js "fbk_1") Route.RESOLVED
           ltac:(vm_compute; reflexivity)).
Defined.

(** A browser's request under the constructor of the Fetch standard: an
    error before the shell is ready gives status 500, whatever comes
    later; and with the status 204, which admits no body, the ready
    callback leaves the promise pending. *)
Lemma response_status_witness :
  EntryServer.promise
    (EntryServer.handleRequest Samples.fetchResponse (fun _ => false) None 200 ∅
       [ EntryServer.onError (js "boom"); EntryServer.onShellReady;
         EntryServer.onError (js "late"); EntryServer.onAllReady ])
  = EntryServer.resolved
      {| EntryServer.status := 500;
         EntryServer.headers := {[ js "content-type" := js "text/html" ]} |}
  /\ EntryServer.promise
       (EntryServer.handleRequest (Error := jsstring) Samples.fetchResponse
          (fun _ => false) None 204 ∅ [EntryServer.onShellReady])
     = EntryServer.pending.
Proof.
  split.
  - exact (proj1 (response_status jsstring Samples.fetchResponse (fun _ => false)
                    None 200 ∅
                    [ EntryServer.onError (js "boom"); EntryServer.onShellReady;
                      EntryServer.onError (js "late"); EntryServer.onAllReady ])).
  - exact (proj1 (proj1 (response_status jsstring Samples.fetchResponse
                           (fun _ => false) None 204 ∅ [EntryServer.onShellReady]))).
Defined.
